(** * NeoPatterns: the pattern stepping machine and the strip controller

    A shallow embedding of [NeoPatterns.h].  The header declares an abstract
    [NeoPattern] (timing gate, cyclic step counter, direction, completion
    hook), six concrete patterns and the [NeoPatterns] controller that owns
    the pixel buffer and drives at most one pattern.

    Integers are modelled as [Z] with the wrap-around of their C type written
    out at every assignment; the host's undefined behaviours that the code
    can reach (null dereference, division by zero, signed overflow) are
    faults of an error monad. *)

From stdpp Require Import base numbers list.
From Stdlib Require Import ZArith Lia.

Local Open Scope Z_scope.

(** ** Machine integers *)

Module Machine.

(** Conversion to an unsigned type of the given width. *)
Definition to_uint8  (x : Z) : Z := x mod 256.
Definition to_uint16 (x : Z) : Z := x mod 65536.
Definition to_uint32 (x : Z) : Z := x mod 4294967296.

(** Conversion to [int8_t] (two's complement). *)
Definition to_int8 (x : Z) : Z := (x + 128) mod 256 - 128.

Definition is_uint8  (x : Z) : Prop := 0 <= x < 256.
Definition is_uint16 (x : Z) : Prop := 0 <= x < 65536.
Definition is_uint32 (x : Z) : Prop := 0 <= x < 4294967296.

(** The width of [int] is the one type of the header that differs between
    the boards it is compiled for: 16 bits on AVR, 32 bits elsewhere.  The
    usual arithmetic conversions of an [int] with a [uint16_t] depend on
    it, so the expressions that mix them take the width as a parameter. *)
Inductive IntWidth := Int16 | Int32.

End Machine.
Export Machine.

(** ** The abstract pattern *)

(** [millis_t] is [unsigned long] (32 bits on every Arduino core),
    [direction_t] is [int8_t], [color_t] is [uint32_t]. *)
Definition FORWARD : Z := 1.
Definition REVERSE : Z := -1.

(** The dynamic type of a pattern object: it selects the override of the
    pure virtual [Update]. *)
Inductive Variant :=
  | RainbowCycle | TheaterChase | ColorWipe | Scanner | Pulsar | Fade.

(** The fields of [class NeoPattern].  The reference [Pixels] to the
    controller is left out: a world holds one controller.  [Completed] is a
    ghost field: the number of calls of the virtual [OnComplete], whose body
    is empty and which no pattern of the header overrides. *)
Record NeoPattern := mkNeoPattern {
  Kind       : Variant;
  Interval   : Z;
  LastUpdate : Z;
  Color1     : Z;
  Color2     : Z;
  TotalSteps : Z;
  Index      : Z;
  Direction  : Z;
  Completed  : nat
}.

Definition set_Index (p : NeoPattern) (i : Z) : NeoPattern :=
  mkNeoPattern (Kind p) (Interval p) (LastUpdate p) (Color1 p) (Color2 p)
               (TotalSteps p) i (Direction p) (Completed p).

Definition set_LastUpdate (p : NeoPattern) (t : Z) : NeoPattern :=
  mkNeoPattern (Kind p) (Interval p) t (Color1 p) (Color2 p)
               (TotalSteps p) (Index p) (Direction p) (Completed p).

Definition set_Direction (p : NeoPattern) (d : Z) : NeoPattern :=
  mkNeoPattern (Kind p) (Interval p) (LastUpdate p) (Color1 p) (Color2 p)
               (TotalSteps p) (Index p) d (Completed p).

(** [Index = LastUpdate = 0;] *)
Definition Reset (p : NeoPattern) : NeoPattern :=
  set_Index (set_LastUpdate p 0) 0.

(** The constructor of the base class: the member initialisers, then
    [Reset()].  Nothing is checked. *)
Definition NeoPattern_new (k : Variant) (interval color1 color2 totalSteps dir : Z)
  : NeoPattern :=
  Reset (mkNeoPattern k interval 0 color1 color2 totalSteps 0 dir 0).

(** [return millis() - LastUpdate > Interval;] on [unsigned long]; [now] is
    the value [millis()] returned. *)
Definition ShouldUpdate (p : NeoPattern) (now : Z) : bool :=
  to_uint32 (now - LastUpdate p) >? Interval p.

(** The call of the completion hook. *)
Definition OnComplete (p : NeoPattern) : NeoPattern :=
  mkNeoPattern (Kind p) (Interval p) (LastUpdate p) (Color1 p) (Color2 p)
               (TotalSteps p) (Index p) (Direction p) (S (Completed p)).

(** [Index += Direction;] is computed in [int] and stored in a [uint16_t];
    the two comparisons are then between unsigned values. *)
Definition Increment (p : NeoPattern) : NeoPattern :=
  let p1 := set_Index p (to_uint16 (Index p + Direction p)) in
  if Index p1 >=? TotalSteps p1 then
    OnComplete (set_Index p1 0)
  else if Index p1 <=? 0 then
    OnComplete (set_Index p1 (to_uint16 (TotalSteps p1 - 1)))
  else p1.

(** [LastUpdate = millis(); Increment();] *)
Definition AfterUpdate (p : NeoPattern) (now : Z) : NeoPattern :=
  Increment (set_LastUpdate p now).

(** [Direction *= -1; Index = (Direction == FORWARD) ? 0 : TotalSteps - 1;] *)
Definition Reverse (p : NeoPattern) : NeoPattern :=
  let p1 := set_Direction p (to_int8 (Direction p * -1)) in
  set_Index p1 (if Direction p1 =? FORWARD then 0
                else to_uint16 (TotalSteps p1 - 1)).

(** ** Colors *)

(** Modelled from the spec: [Color] is a static member of the base class
    [Adafruit_NeoPixel], which the header includes and does not define.  The
    spec fixes the packing: bits 23-16 red, 15-8 green, 7-0 blue; the three
    parameters are [uint8_t]. *)
Definition Color (r g b : Z) : Z :=
  Z.lor (Z.lor (Z.shiftl (to_uint8 r) 16) (Z.shiftl (to_uint8 g) 8)) (to_uint8 b).

(** [return (color >> 16) & 0xFF;] and its two siblings. *)
Definition Red   (color : Z) : Z := Z.land (Z.shiftr color 16) 255.
Definition Green (color : Z) : Z := Z.land (Z.shiftr color 8) 255.
Definition Blue  (color : Z) : Z := Z.land color 255.

(** [return Color(Red(color) >> 1, Green(color) >> 1, Blue(color) >> 1);] *)
Definition DimColor (color : Z) : Z :=
  Color (Z.shiftr (Red color) 1) (Z.shiftr (Green color) 1) (Z.shiftr (Blue color) 1).

(** [Wheel(byte WheelPos)]: the parameter is a byte, and so is every value
    assigned to it; the products and differences are computed in [int] and
    converted by [Color]. *)
Definition Wheel (WheelPos : Z) : Z :=
  let WheelPos := to_uint8 (255 - WheelPos) in
  if WheelPos <? 85 then
    Color (255 - WheelPos * 3) 0 (WheelPos * 3)
  else if WheelPos <? 170 then
    let WheelPos := to_uint8 (WheelPos - 85) in
    Color 0 (WheelPos * 3) (255 - WheelPos * 3)
  else
    let WheelPos := to_uint8 (WheelPos - 170) in
    Color (WheelPos * 3) (255 - WheelPos * 3) 0.

(** ** The world: pattern objects, the controller, the strip and the clock *)

(** A pattern pointer is [None] for [NULL] and [Some a] for the object at
    address [a] of the heap; the host program owns the objects.  [shown]
    lists the frames transmitted to the strip, the latest first.  [millis()]
    is an input: [clock k] is the value of its [k]-th call. *)
Record World := mkWorld {
  heap          : list NeoPattern;
  ActivePattern : option nat;
  pixels        : list Z;
  shown         : list (list Z);
  clock         : nat -> Z;
  reads         : nat
}.

Definition set_heap (w : World) (h : list NeoPattern) : World :=
  mkWorld h (ActivePattern w) (pixels w) (shown w) (clock w) (reads w).

Definition set_ActivePattern (w : World) (a : option nat) : World :=
  mkWorld (heap w) a (pixels w) (shown w) (clock w) (reads w).

Definition set_pixels (w : World) (px : list Z) : World :=
  mkWorld (heap w) (ActivePattern w) px (shown w) (clock w) (reads w).

Definition set_shown (w : World) (s : list (list Z)) : World :=
  mkWorld (heap w) (ActivePattern w) (pixels w) s (clock w) (reads w).

Definition set_reads (w : World) (k : nat) : World :=
  mkWorld (heap w) (ActivePattern w) (pixels w) (shown w) (clock w) k.

(** Computations on the world that may fault. *)
Definition M (A : Type) : Type := World -> option (A * World).

Definition ret {A} (a : A) : M A := fun w => Some (a, w).

Definition fault {A} : M A := fun _ => None.

Definition bind {A B} (m : M A) (k : A -> M B) : M B :=
  fun w => match m w with
           | Some (a, w') => k a w'
           | None => None
           end.

Notation "'let*' x ':=' m 'in' k" := (bind m (fun x => k))
  (at level 10, x name, m at level 100, k at level 200).
Notation "m '>>' k" := (bind m (fun _ => k))
  (at level 65, right associativity).

Definition get : M World := fun w => Some (w, w).
Definition put (w : World) : M unit := fun _ => Some (tt, w).
Definition modify (f : World -> World) : M unit := fun w => Some (tt, f w).

(** [when c m]: [if (c) { m }]. *)
Definition when (c : bool) (m : M unit) : M unit := if c then m else ret tt.

(** Running the body on each element in turn. *)
Fixpoint for_each {A} (body : A -> M unit) (l : list A) : M unit :=
  match l with
  | [] => ret tt
  | x :: l' => body x >> for_each body l'
  end.

(** *** The driver *)

(** Modelled from the spec: the pixel-buffer driver [Adafruit_NeoPixel] is an
    external collaborator; the spec gives its capability surface: the buffer
    is an ordered sequence of packed colors, one per LED, with "set pixel i
    to color c", "get pixel i", "pixel count", "clear" and "transmit".
    Writing outside the strip changes nothing and reading there gives 0. *)
Definition numPixels (w : World) : Z := Z.of_nat (length (pixels w)).

(** Modelled from the spec: the driver's "set pixel i to color c"; an index
    outside the strip is ignored. *)
Definition setPixelColor (n c : Z) : M unit :=
  modify (fun w =>
    if (0 <=? n) && (n <? numPixels w)
    then set_pixels w (<[Z.to_nat n := c]> (pixels w))
    else w).

(** Modelled from the spec: the driver's "get pixel i"; 0 outside the
    strip. *)
Definition getPixelColor (n : Z) (w : World) : Z :=
  if 0 <=? n then default 0 (pixels w !! Z.to_nat n) else 0.

(** Modelled from the spec: the driver's "clear": every pixel to the off
    color. *)
Definition clear : M unit :=
  modify (fun w => set_pixels w (replicate (length (pixels w)) 0)).

(** Modelled from the spec: the driver's "transmit": the buffer as it is
    goes to the strip. *)
Definition show : M unit :=
  modify (fun w => set_shown w (pixels w :: shown w)).

(** Modelled from the spec: the time source [millis()], monotonic in the
    spec; here any sequence of readings, each an [unsigned long]. *)
Definition millis : M Z :=
  fun w => Some (to_uint32 (clock w (reads w)), set_reads w (S (reads w))).

(** *** Pattern objects *)

(** Dereferencing a pattern pointer: [NULL] and addresses without an object
    fault. *)
Definition deref (ptr : option nat) : M NeoPattern :=
  fun w => match ptr with
           | Some a => match heap w !! a with
                       | Some p => Some (p, w)
                       | None => None
                       end
           | None => None
           end.

(** [ptr->f()] for a member function [f] that mutates the object only. *)
Definition call (ptr : option nat) (f : NeoPattern -> NeoPattern) : M unit :=
  let* p := deref ptr in
  modify (fun w => match ptr with
                   | Some a => set_heap w (<[a := f p]> (heap w))
                   | None => w
                   end).

(** A new pattern object, at the next free address. *)
Definition new (p : NeoPattern) : M (option nat) :=
  fun w => Some (Some (length (heap w)), set_heap w (heap w ++ [p])).

(** *** Arithmetic that mixes [int] and [uint16_t] *)

(** The value of an expression with a [uint16_t] operand.  On a 16-bit [int]
    the operands convert to [unsigned int] and the result wraps; on a 32-bit
    [int] they promote to [int], which holds every value the header computes
    from 8-bit and 16-bit operands (all are below 2^31 in magnitude). *)
Definition promoted (iw : IntWidth) (x : Z) : Z :=
  match iw with
  | Int16 => to_uint16 x
  | Int32 => x
  end.

(** Whether a value of an expression on [int] operands alone is an [int];
    if not, the signed overflow is a fault. *)
Definition int_ok (iw : IntWidth) (x : Z) : bool :=
  match iw with
  | Int16 => (-32768 <=? x) && (x <=? 32767)
  | Int32 => (-2147483648 <=? x) && (x <=? 2147483647)
  end.

(** [for (int i = 0; i < numPixels(); ++i) body(i)].  No body changes the
    number of pixels, so the bound is read once; the counter reaches the
    bound, which has to be an [int]. *)
Definition for_pixels (iw : IntWidth) (body : Z -> M unit) : M unit :=
  let* w := get in
  if int_ok iw (numPixels w)
  then for_each body (Z.of_nat <$> seq 0 (length (pixels w)))
  else fault.

(** [ColorSet]: every pixel, then [show()]. *)
Definition ColorSet (iw : IntWidth) (color : Z) : M unit :=
  for_pixels iw (fun i => setPixelColor i color) >> show.

(** *** The six overrides of [Update] *)

(** [setPixelColor(i, Wheel(((i * 256 / numPixels()) + Index) & 255))] *)
Definition RainbowCycle_Update (iw : IntWidth) (p : NeoPattern) : M unit :=
  for_pixels iw (fun i =>
    let* w := get in
    if int_ok iw (i * 256) then
      setPixelColor i
        (Wheel (to_uint8 (Z.land
           (promoted iw (promoted iw (Z.quot (i * 256) (numPixels w)) + Index p))
           255)))
    else fault).

(** [setPixelColor(i, ((i + Index) % 3 == 0) ? Color1 : Color2)] *)
Definition TheaterChase_Update (iw : IntWidth) (p : NeoPattern) : M unit :=
  for_pixels iw (fun i =>
    setPixelColor i
      (if Z.rem (promoted iw (i + Index p)) 3 =? 0 then Color1 p else Color2 p)).

(** [Pixels.setPixelColor(Index, Color1);] *)
Definition ColorWipe_Update (p : NeoPattern) : M unit :=
  setPixelColor (Index p) (Color1 p).

(** [setPixelColor(i, (i == Index || i == TotalSteps - Index) ? Color1
    : DimColor(getPixelColor(i)))] *)
Definition Scanner_Update (iw : IntWidth) (p : NeoPattern) : M unit :=
  for_pixels iw (fun i =>
    let* w := get in
    setPixelColor i
      (if (i =? Index p) || (i =? promoted iw (TotalSteps p - Index p))
       then Color1 p
       else DimColor (getPixelColor i w))).

(** [Pixels.ColorSet(Index == 0 ? Color1 : Color2);] *)
Definition Pulsar_Update (iw : IntWidth) (p : NeoPattern) : M unit :=
  ColorSet iw (if Index p =? 0 then Color1 p else Color2 p).

(** One channel of the interpolation:
    [((channel1 * (TotalSteps - Index)) + (channel2 * Index)) / TotalSteps],
    stored in a [uint8_t].  A zero divisor is a fault. *)
Definition Fade_channel (iw : IntWidth) (channel1 channel2 : Z) (p : NeoPattern)
  : option Z :=
  if TotalSteps p =? 0 then None
  else Some (to_uint8 (Z.quot
         (promoted iw (promoted iw (channel1 * promoted iw (TotalSteps p - Index p))
                       + promoted iw (channel2 * Index p)))
         (TotalSteps p))).

Definition lift {A} (o : option A) : M A :=
  fun w => match o with
           | Some a => Some (a, w)
           | None => None
           end.

Definition Fade_Update (iw : IntWidth) (p : NeoPattern) : M unit :=
  let* red   := lift (Fade_channel iw (Red (Color1 p)) (Red (Color2 p)) p) in
  let* green := lift (Fade_channel iw (Green (Color1 p)) (Green (Color2 p)) p) in
  let* blue  := lift (Fade_channel iw (Blue (Color1 p)) (Blue (Color2 p)) p) in
  ColorSet iw (Color red green blue).

(** [ptr->Update()]: the virtual call. *)
Definition Pattern_Update (iw : IntWidth) (ptr : option nat) : M unit :=
  let* p := deref ptr in
  match Kind p with
  | RainbowCycle => RainbowCycle_Update iw p
  | TheaterChase => TheaterChase_Update iw p
  | ColorWipe => ColorWipe_Update p
  | Scanner => Scanner_Update iw p
  | Pulsar => Pulsar_Update iw p
  | Fade => Fade_Update iw p
  end.

(** [ptr->AfterUpdate()] *)
Definition Pattern_AfterUpdate (ptr : option nat) : M unit :=
  let* now := millis in
  call ptr (fun p => AfterUpdate p now).

(** *** The constructors of the six patterns *)

Definition RainbowCycle_new (interval dir : Z) : M (option nat) :=
  new (NeoPattern_new RainbowCycle interval 0 0 255 dir).

Definition TheaterChase_new (interval color1 color2 dir : Z) : M (option nat) :=
  let* w := get in
  new (NeoPattern_new TheaterChase interval color1 color2 (numPixels w) dir).

Definition ColorWipe_new (interval color dir : Z) : M (option nat) :=
  let* w := get in
  new (NeoPattern_new ColorWipe interval color 0 (numPixels w) dir).

Definition Scanner_new (interval color : Z) (split : bool) : M (option nat) :=
  let* w := get in
  new (NeoPattern_new Scanner interval color 0
         (to_uint16 (numPixels w * (if split then 1 else 2))) FORWARD).

Definition Pulsar_new (interval color1 color2 : Z) : M (option nat) :=
  new (NeoPattern_new Pulsar interval color1 color2 2 FORWARD).

Definition Fade_new (interval color1 color2 steps dir : Z) : M (option nat) :=
  new (NeoPattern_new Fade interval color1 color2 steps dir).

(** ** The controller *)

(** The constructor: [ActivePattern(NULL)], after the constructor of the
    base class, which gives a strip of [n] dark pixels. *)
Definition NeoPatterns_new (n : nat) (clk : nat -> Z) : World :=
  mkWorld [] None (replicate n 0) [] clk 0%nat.

(** [return ActivePattern != NULL;] *)
Definition IsActive (w : World) : bool :=
  match ActivePattern w with
  | Some _ => true
  | None => false
  end.

(** [return ActivePattern == pattern;] *)
Definition IsActive_pattern (w : World) (pattern : option nat) : bool :=
  bool_decide (ActivePattern w = pattern).

(** [ActivePattern = pattern; ActivePattern->Reset();] *)
Definition Start (pattern : option nat) : M unit :=
  modify (fun w => set_ActivePattern w pattern) >>
  let* w := get in
  call (ActivePattern w) Reset.

(** [ActivePattern = NULL; clear(); show();] *)
Definition Stop : M unit :=
  modify (fun w => set_ActivePattern w None) >> clear >> show.

(** The controller's [Update()]. *)
Definition Update (iw : IntWidth) : M unit :=
  let* w := get in
  when (IsActive w)
    (let* p := deref (ActivePattern w) in
     let* now := millis in
     when (ShouldUpdate p now)
       (Pattern_Update iw (ActivePattern w) >>
        show >>
        Pattern_AfterUpdate (ActivePattern w))).

(** ** The host loop *)

(** [n] turns of a loop that calls [Update()]. *)
Fixpoint ticks (iw : IntWidth) (n : nat) : M unit :=
  match n with
  | O => ret tt
  | S k => Update iw >> ticks iw k
  end.

(** Whether the next call of [Update()] runs the update body: a pattern is
    attached and its gate is open at the next reading of the clock. *)
Definition gate_open (w : World) : bool :=
  match ActivePattern w with
  | Some a => match heap w !! a with
              | Some p => ShouldUpdate p (to_uint32 (clock w (reads w)))
              | None => false
              end
  | None => false
  end.

(** The number of applied updates among the next [n] turns. *)
Fixpoint applied (iw : IntWidth) (n : nat) (w : World) : nat :=
  match n with
  | O => 0%nat
  | S k =>
      ((if gate_open w then 1 else 0) +
       match Update iw w with
       | Some (_, w') => applied iw k w'
       | None => 0
       end)%nat
  end.

(** ** Sequences of operations on one pattern *)

(** The operations a client applies to a pattern between two observations. *)
Inductive Op := OpReset | OpIncrement | OpAfterUpdate (now : Z) | OpReverse.

Definition apply_op (p : NeoPattern) (o : Op) : NeoPattern :=
  match o with
  | OpReset => Reset p
  | OpIncrement => Increment p
  | OpAfterUpdate now => AfterUpdate p now
  | OpReverse => Reverse p
  end.

Definition apply_ops (p : NeoPattern) (ops : list Op) : NeoPattern :=
  fold_left apply_op ops p.

(** [n] calls of [Increment()]. *)
Definition Increment_n (n : nat) (p : NeoPattern) : NeoPattern :=
  Nat.iter n Increment p.

(** The resting states of a pattern with [TotalSteps = T]. *)
Definition in_cycle (T : Z) (p : NeoPattern) : Prop :=
  TotalSteps p = T /\ 0 <= Index p < T /\
  (Direction p = FORWARD \/ Direction p = REVERSE).

(** ** The cross-fade of the spec *)

(** One channel of the linear cross-fade as the spec words it:
    (channel1 x (totalSteps - index) + channel2 x index) / totalSteps, on
    unbounded integers. *)
Definition interpolate (channel1 channel2 totalSteps index : Z) : Z :=
  (channel1 * (totalSteps - index) + channel2 * index) / totalSteps.

(** The color of the spec's cross-fade for the pattern [p]: the three
    channels of its two colors, interpolated at its index. *)
Definition crossfade (p : NeoPattern) : Z :=
  Color (interpolate (Red (Color1 p)) (Red (Color2 p)) (TotalSteps p) (Index p))
        (interpolate (Green (Color1 p)) (Green (Color2 p)) (TotalSteps p) (Index p))
        (interpolate (Blue (Color1 p)) (Blue (Color2 p)) (TotalSteps p) (Index p)).

(** The channel-wise midpoint of two colors, truncated. *)
Definition midpoint (color1 color2 : Z) : Z :=
  Color ((Red color1 + Red color2) / 2)
        ((Green color1 + Green color2) / 2)
        ((Blue color1 + Blue color2) / 2).

(** ** What a frame computation may touch *)

(** A computation that draws: it leaves the pattern objects, the attached
    pattern, the clock and the number of pixels as they were. *)
Definition draws {A} (m : M A) : Prop :=
  forall w a w', m w = Some (a, w') ->
    heap w' = heap w /\ ActivePattern w' = ActivePattern w /\
    clock w' = clock w /\ reads w' = reads w /\
    length (pixels w') = length (pixels w).

(** A computation that transmits nothing. *)
Definition silent {A} (m : M A) : Prop :=
  forall w a w', m w = Some (a, w') -> shown w' = shown w.

(** ** The progress of a color wipe *)

(** The state of a world whose controller drives a forward [ColorWipe] of
    color [c] over [N] pixels, [k] applied updates after its start: the
    pattern is the object at [a], it has stepped [k] times, and the first [k]
    pixels (all of them once [k] reaches [N]) have the color. *)
Definition wiping (N : nat) (c : Z) (a : nat) (k : nat) (w : World) : Prop :=
  ActivePattern w = Some a /\
  length (pixels w) = N /\
  (forall i, (i < k)%nat -> (i < N)%nat -> pixels w !! i = Some c) /\
  exists p, heap w !! a = Some p /\
            Kind p = ColorWipe /\ Color1 p = c /\
            TotalSteps p = Z.of_nat N /\ Direction p = FORWARD /\
            Index p = Z.of_nat k mod Z.of_nat N /\
            Z.of_nat (Completed p) = Z.of_nat k / Z.of_nat N.

(** ** The progress of a pulsar *)

(** The state of a world whose controller drives a [Pulsar] of colors [c1]
    and [c2] over [N] pixels, [k] applied updates after its start: the
    pattern is the object at [a], it has stepped [k] times, and once an
    update was applied the strip shows the color of the last one, which was
    transmitted twice in a row. *)
Definition pulsing (N : nat) (c1 c2 : Z) (a : nat) (k : nat) (w : World) : Prop :=
  ActivePattern w = Some a /\
  length (pixels w) = N /\
  ((1 <= k)%nat ->
   pixels w = replicate N (if Nat.odd k then c1 else c2) /\
   exists rest, shown w = pixels w :: pixels w :: rest) /\
  exists p, heap w !! a = Some p /\
            Kind p = Pulsar /\ Color1 p = c1 /\ Color2 p = c2 /\
            TotalSteps p = 2 /\ Direction p = FORWARD /\
            Index p = Z.of_nat k mod 2 /\
            Z.of_nat (Completed p) = Z.of_nat k / 2.

(** * Properties *)

Ltac branches :=
  repeat match goal with
    | |- context [?a >=? ?b] => rewrite (Z.geb_leb a b)
    | |- context [?a >? ?b] => rewrite (Z.gtb_ltb a b)
    | |- context [?a <=? ?b] => destruct (Z.leb_spec a b)
    | |- context [?a <? ?b] => destruct (Z.ltb_spec a b)
    | |- context [?a =? ?b] => destruct (Z.eqb_spec a b)
    end.

Lemma to_uint16_small x : 0 <= x < 65536 -> to_uint16 x = x.
Proof. intros. unfold to_uint16. now apply Z.mod_small. Qed.

Lemma to_uint16_minus_one : to_uint16 (-1) = 65535.
Proof. reflexivity. Qed.

Lemma to_uint8_small x : 0 <= x < 256 -> to_uint8 x = x.
Proof. intros. unfold to_uint8. now apply Z.mod_small. Qed.

Lemma to_uint32_small x : 0 <= x < 4294967296 -> to_uint32 x = x.
Proof. intros. unfold to_uint32. now apply Z.mod_small. Qed.

(** *** One step of the counter *)

Section Increment.

Variable p : NeoPattern.
Hypothesis steps : 1 <= TotalSteps p < 65536.

(** [Increment] touches the index and the completion count only. *)
Lemma Increment_frame :
  Kind (Increment p) = Kind p /\ Interval (Increment p) = Interval p /\
  LastUpdate (Increment p) = LastUpdate p /\
  Color1 (Increment p) = Color1 p /\ Color2 (Increment p) = Color2 p /\
  TotalSteps (Increment p) = TotalSteps p /\
  Direction (Increment p) = Direction p.
Proof. unfold Increment; cbn; branches; cbn; auto 10. Qed.

(** Forward, inside the cycle: one up, and back to 0 with a completion
    when the index would have become [TotalSteps]. *)
Lemma Increment_forward :
  Direction p = FORWARD -> 0 <= Index p < TotalSteps p ->
  Increment p =
    if Index p + 1 =? TotalSteps p
    then OnComplete (set_Index p 0)
    else set_Index p (Index p + 1).
Proof.
  intros Hd Hi. unfold Increment, FORWARD in *. rewrite Hd. cbn.
  rewrite to_uint16_small by lia. branches; try lia; reflexivity.
Qed.

(** Reverse, from 2 and above: one down, no completion. *)
Lemma Increment_reverse_inner :
  Direction p = REVERSE -> 2 <= Index p < TotalSteps p ->
  Increment p = set_Index p (Index p - 1).
Proof.
  intros Hd Hi. unfold Increment, REVERSE in *. rewrite Hd. cbn.
  replace (Index p + -1) with (Index p - 1) by lia.
  rewrite to_uint16_small by lia. branches; try lia; reflexivity.
Qed.

(** Reverse, from 1: the new index is 0, which the second test takes for
    the wrap; the pattern never rests on 0. *)
Lemma Increment_reverse_one :
  Direction p = REVERSE -> Index p = 1 ->
  Increment p = OnComplete (set_Index p (TotalSteps p - 1)).
Proof.
  intros Hd Hi. unfold Increment, REVERSE in *. rewrite Hd, Hi. cbn.
  change (to_uint16 (1 + -1)) with 0.
  branches; try lia. unfold set_Index; cbn. now rewrite to_uint16_small by lia.
Qed.

(** Reverse, from 0: the sum is -1, stored as 65535, which the first test
    takes for the forward wrap; the index is 0 again. *)
Lemma Increment_reverse_zero :
  Direction p = REVERSE -> Index p = 0 ->
  Increment p = OnComplete (set_Index p 0).
Proof.
  intros Hd Hi. unfold Increment, REVERSE in *. rewrite Hd, Hi. cbn.
  change (to_uint16 (0 + -1)) with 65535.
  branches; try lia. reflexivity.
Qed.

(** Whatever the index and the direction were, the index rests in the
    cycle after the call. *)
Lemma Increment_in_range : 0 <= Index (Increment p) < TotalSteps p.
Proof.
  unfold Increment. cbn. branches; cbn; try lia.
  rewrite to_uint16_small; lia.
Qed.

End Increment.

(** *** Arithmetic of a cyclic counter *)

Lemma succ_mod (n T : Z) :
  0 <= n -> 0 < T ->
  (n + 1) mod T = if n mod T + 1 =? T then 0 else n mod T + 1.
Proof.
  intros Hn HT. pose proof (Z.div_mod n T ltac:(lia)) as E.
  pose proof (Z.mod_pos_bound n T HT) as B.
  destruct (Z.eqb_spec (n mod T + 1) T) as [e|e]; symmetry.
  - apply Z.mod_unique_pos with (q := n / T + 1); lia.
  - apply Z.mod_unique_pos with (q := n / T); lia.
Qed.

Lemma succ_div (n T : Z) :
  0 <= n -> 0 < T ->
  (n + 1) / T = n / T + (if n mod T + 1 =? T then 1 else 0).
Proof.
  intros Hn HT. pose proof (Z.div_mod n T ltac:(lia)) as E.
  pose proof (Z.mod_pos_bound n T HT) as B.
  destruct (Z.eqb_spec (n mod T + 1) T) as [e|e]; symmetry.
  - apply Z.div_unique_pos with (r := 0); lia.
  - apply Z.div_unique_pos with (r := n mod T + 1); lia.
Qed.

(** *** Runs of the counter *)

Lemma Increment_n_S n p : Increment_n (S n) p = Increment (Increment_n n p).
Proof. reflexivity. Qed.

(** The state after [n] forward steps from 0, field by field. *)
Lemma forward_run (p : NeoPattern) (n : nat) :
  1 <= TotalSteps p < 65536 -> Index p = 0 -> Direction p = FORWARD ->
  Increment_n n p =
    mkNeoPattern (Kind p) (Interval p) (LastUpdate p) (Color1 p) (Color2 p)
      (TotalSteps p) (Z.of_nat n mod TotalSteps p) FORWARD
      (Completed p + Z.to_nat (Z.of_nat n / TotalSteps p)).
Proof.
  intros HT Hi Hd. induction n as [|n IH].
  - cbn. rewrite Z.mod_0_l, Z.div_0_l by lia. cbn. rewrite Nat.add_0_r.
    destruct p; cbn in *; congruence.
  - rewrite Increment_n_S, IH.
    pose proof (Z.mod_pos_bound (Z.of_nat n) (TotalSteps p) ltac:(lia)) as B.
    pose proof (Z.div_pos (Z.of_nat n) (TotalSteps p) ltac:(lia) ltac:(lia)) as Q.
    rewrite Increment_forward by (cbn; auto; lia). cbn.
    replace (Z.of_nat (S n)) with (Z.of_nat n + 1) by lia.
    rewrite succ_mod, succ_div by lia.
    destruct (Z.eqb_spec (Z.of_nat n mod TotalSteps p + 1) (TotalSteps p));
      unfold OnComplete, set_Index; cbn; f_equal; lia.
Qed.

(** In reverse from 0 the counter does not move. *)
Lemma reverse_run_zero (p : NeoPattern) (n : nat) :
  1 <= TotalSteps p < 65536 -> Index p = 0 -> Direction p = REVERSE ->
  Increment_n n p =
    mkNeoPattern (Kind p) (Interval p) (LastUpdate p) (Color1 p) (Color2 p)
      (TotalSteps p) 0 REVERSE (Completed p + n).
Proof.
  intros HT Hi Hd. induction n as [|n IH].
  - cbn. rewrite Nat.add_0_r. destruct p; cbn in *; congruence.
  - rewrite Increment_n_S, IH, Increment_reverse_zero by (cbn; auto).
    unfold OnComplete, set_Index; cbn. f_equal. lia.
Qed.

(** In reverse from anywhere else the counter stays away from 0. *)
Lemma reverse_run_positive (p : NeoPattern) (n : nat) :
  TotalSteps p < 65536 -> 1 <= Index p < TotalSteps p -> Direction p = REVERSE ->
  TotalSteps (Increment_n n p) = TotalSteps p /\
  Direction (Increment_n n p) = REVERSE /\
  1 <= Index (Increment_n n p) < TotalSteps p.
Proof.
  intros HT Hi Hd. induction n as [|n (IT & ID & II)]; [auto|].
  rewrite Increment_n_S. set (q := Increment_n n p) in *.
  destruct (Z.eq_dec (Index q) 1) as [e|e].
  - rewrite Increment_reverse_one by (auto; lia). cbn. lia.
  - rewrite Increment_reverse_inner by (auto; lia). cbn. lia.
Qed.

(** *** Every operation keeps the pattern in its cycle *)

Lemma Reverse_direction (p : NeoPattern) :
  Direction p = FORWARD \/ Direction p = REVERSE ->
  Direction (Reverse p) = - Direction p.
Proof. unfold Reverse, FORWARD, REVERSE. intros [-> | ->]; reflexivity. Qed.

Lemma Reverse_index (p : NeoPattern) :
  1 <= TotalSteps p < 65536 ->
  Index (Reverse p) =
    if Direction (Reverse p) =? FORWARD then 0 else TotalSteps p - 1.
Proof.
  intros HT. unfold Reverse. cbn. branches; [reflexivity|].
  apply to_uint16_small. lia.
Qed.

Lemma apply_op_in_cycle (T : Z) (p : NeoPattern) (o : Op) :
  1 <= T < 65536 -> in_cycle T p -> in_cycle T (apply_op p o).
Proof.
  intros HT (ET & HI & HD). destruct o; cbn.
  - repeat split; auto; cbn; lia.
  - destruct (Increment_frame p) as (_ & _ & _ & _ & _ & E1 & E2).
    pose proof (Increment_in_range p ltac:(lia)).
    repeat split; lia.
  - unfold AfterUpdate. set (q := set_LastUpdate p now).
    destruct (Increment_frame q) as (_ & _ & _ & _ & _ & E1 & E2).
    pose proof (Increment_in_range q ltac:(cbn; lia)) as R. cbn in R.
    cbn in E1, E2. repeat split; lia.
  - pose proof (Reverse_index p ltac:(lia)) as E.
    pose proof (Reverse_direction p HD) as D.
    repeat split.
    + unfold Reverse. cbn. exact ET.
    + rewrite E. branches; lia.
    + rewrite E. branches; lia.
    + unfold FORWARD, REVERSE in *. lia.
Qed.

Lemma apply_ops_in_cycle (T : Z) (ops : list Op) :
  1 <= T < 65536 -> forall p, in_cycle T p -> in_cycle T (apply_ops p ops).
Proof.
  intros HT. unfold apply_ops.
  induction ops as [|o ops IH]; intros p Hp; cbn; [exact Hp|].
  apply IH. now apply apply_op_in_cycle.
Qed.

(** *** The stepping protocol *)

(** C1. The wrap policy in reverse.  With [TotalSteps >= 1] and the reverse
    direction, a pattern whose index is 0 (as it is after construction and
    after [Reset]) never leaves 0 and completes on every call, and a pattern
    whose index is anywhere else in the cycle never rests on 0: the reverse
    cycle does not traverse all [TotalSteps] positions. *)
Theorem reverse_cycle_misses_zero (p : NeoPattern) :
  1 <= TotalSteps p < 65536 -> Direction p = REVERSE ->
  (Index p = 0 ->
   forall n, Index (Increment_n n p) = 0 /\
             Completed (Increment_n n p) = (Completed p + n)%nat) /\
  (1 <= Index p < TotalSteps p ->
   forall n, Index (Increment_n n p) <> 0).
Proof.
  intros HT Hd. split.
  - intros Hi n. rewrite reverse_run_zero by assumption. cbn. auto.
  - intros Hi n.
    destruct (reverse_run_positive p n ltac:(lia) Hi Hd) as (_ & _ & R). lia.
Qed.

Lemma reverse_cycle_misses_zero_witness :
  (Index (Increment_n 3 (NeoPattern_new RainbowCycle 20 0 0 255 REVERSE)) = 0 /\
   Completed (Increment_n 3 (NeoPattern_new RainbowCycle 20 0 0 255 REVERSE)) = 3%nat) /\
  Index (Increment_n 7 (Reverse (NeoPattern_new ColorWipe 50 65280 0 8 FORWARD))) <> 0.
Proof.
  split.
  - apply (reverse_cycle_misses_zero (NeoPattern_new RainbowCycle 20 0 0 255 REVERSE));
      [cbn; lia | reflexivity | reflexivity].
  - apply (reverse_cycle_misses_zero (Reverse (NeoPattern_new ColorWipe 50 65280 0 8 FORWARD)));
      [change (1 <= 8 < 65536); lia | reflexivity | change (1 <= 7 < 8); lia].
Defined.

(** C2. Forward from index 0, with [TotalSteps >= 1]: after [n >= 1] calls
    of [Increment] the index is [n mod TotalSteps], the completion hook has
    been called [n / TotalSteps] times, and the [n]-th call fires it exactly
    when the index would have become [TotalSteps]. *)
Theorem forward_cycle (p : NeoPattern) (n : nat) :
  1 <= TotalSteps p < 65536 -> Index p = 0 -> Direction p = FORWARD ->
  (1 <= n)%nat ->
  Index (Increment_n n p) = Z.of_nat n mod TotalSteps p /\
  Z.of_nat (Completed (Increment_n n p)) =
    Z.of_nat (Completed p) + Z.of_nat n / TotalSteps p /\
  Completed (Increment_n n p) =
    (Completed (Increment_n (n - 1) p) +
     (if (Index (Increment_n (n - 1) p) + 1 =? TotalSteps p)%Z then 1 else 0))%nat.
Proof.
  intros HT Hi Hd Hn.
  pose proof (Z.div_pos (Z.of_nat n) (TotalSteps p) ltac:(lia) ltac:(lia)) as Q.
  split; [|split].
  - rewrite forward_run by assumption. reflexivity.
  - rewrite forward_run by assumption. cbn. lia.
  - destruct n as [|m]; [lia|].
    replace (S m - 1)%nat with m by lia.
    pose proof (Z.div_pos (Z.of_nat m) (TotalSteps p) ltac:(lia) ltac:(lia)) as Q'.
    rewrite !forward_run by assumption. cbn [Completed Index].
    replace (Z.of_nat (S m)) with (Z.of_nat m + 1) by lia.
    rewrite succ_div by lia.
    destruct (Z.eqb_spec (Z.of_nat m mod TotalSteps p + 1) (TotalSteps p)); lia.
Qed.

Lemma forward_cycle_witness :
  Index (Increment_n 19 (NeoPattern_new ColorWipe 50 65280 0 8 FORWARD)) =
    Z.of_nat 19 mod 8 /\
  Z.of_nat (Completed (Increment_n 19 (NeoPattern_new ColorWipe 50 65280 0 8 FORWARD))) =
    Z.of_nat 0 + Z.of_nat 19 / 8 /\
  Completed (Increment_n 19 (NeoPattern_new ColorWipe 50 65280 0 8 FORWARD)) =
    (Completed (Increment_n (19 - 1) (NeoPattern_new ColorWipe 50 65280 0 8 FORWARD)) +
     (if (Index (Increment_n (19 - 1) (NeoPattern_new ColorWipe 50 65280 0 8 FORWARD)) + 1
          =? 8)%Z then 1 else 0))%nat.
Proof.
  apply (forward_cycle (NeoPattern_new ColorWipe 50 65280 0 8 FORWARD) 19);
    [change (1 <= 8 < 65536); lia | reflexivity | reflexivity | lia].
Defined.

(** C3. With [TotalSteps >= 1] and a direction of +1 or -1, the index is in
    [0, TotalSteps) after construction and after every sequence of [Reset],
    [Increment], [AfterUpdate] and [Reverse]; the direction stays +1 or -1;
    [Reverse] flips the sign of the direction and puts the index on 0 when
    the new direction is forward and on [TotalSteps - 1] when it is
    reverse. *)
Theorem index_in_cycle (k : Variant) (interval color1 color2 T dir : Z)
    (ops : list Op) :
  1 <= T < 65536 -> dir = FORWARD \/ dir = REVERSE ->
  in_cycle T (apply_ops (NeoPattern_new k interval color1 color2 T dir) ops) /\
  (forall p, in_cycle T p ->
     in_cycle T (Reverse p) /\
     Direction (Reverse p) = - Direction p /\
     Index (Reverse p) =
       if Direction (Reverse p) =? FORWARD then 0 else T - 1).
Proof.
  intros HT Hd. split.
  - apply apply_ops_in_cycle; [exact HT|].
    repeat split; cbn; auto; lia.
  - intros p Hp. split; [|split].
    + exact (apply_op_in_cycle T p OpReverse HT Hp).
    + destruct Hp as (_ & _ & D). now apply Reverse_direction.
    + destruct Hp as (E & _ & _). rewrite <- E. apply Reverse_index. lia.
Qed.

Lemma index_in_cycle_witness :
  in_cycle 8
    (apply_ops (NeoPattern_new Scanner 30 255 0 8 REVERSE)
       [OpIncrement; OpReverse; OpAfterUpdate 31; OpReverse; OpIncrement;
        OpIncrement; OpReset; OpReverse; OpIncrement]).
Proof.
  exact (proj1 (index_in_cycle Scanner 30 255 0 8 REVERSE
                  [OpIncrement; OpReverse; OpAfterUpdate 31; OpReverse;
                   OpIncrement; OpIncrement; OpReset; OpReverse; OpIncrement]
                  ltac:(lia) (or_intror eq_refl))).
Defined.

(** *** The timing gate *)

Lemma ShouldUpdate_elapsed (p : NeoPattern) (now : Z) :
  ShouldUpdate p now = true <-> Interval p < to_uint32 (now - LastUpdate p).
Proof. unfold ShouldUpdate. rewrite Z.gtb_ltb. apply Z.ltb_lt. Qed.

(** C5, first half.  With interval 0 a tick in the millisecond of the last
    update is not eligible: a pattern updated at time 7 and asked again at
    time 7 answers no. *)
Lemma interval_zero_same_millisecond :
  Interval (AfterUpdate (NeoPattern_new Pulsar 0 16711680 0 2 FORWARD) 7) = 0 /\
  ShouldUpdate (AfterUpdate (NeoPattern_new Pulsar 0 16711680 0 2 FORWARD) 7) 7 = false.
Proof. split; reflexivity. Qed.

(** C5, as the code has it.  [ShouldUpdate] is a function of the pattern and
    of the clock alone.  It answers yes exactly when the time elapsed since
    [LastUpdate], counted on the 32-bit clock, exceeds [Interval]; as long as
    the clock has not wrapped that is [now - LastUpdate > Interval].  It
    answers no right after the update was marked at the same reading.  With
    interval 0 it answers yes exactly when the clock has moved since
    [LastUpdate]. *)
Theorem ShouldUpdate_gate (p : NeoPattern) (now : Z) :
  is_uint32 now -> is_uint32 (LastUpdate p) -> is_uint32 (Interval p) ->
  (ShouldUpdate p now = true <->
   Interval p < (now - LastUpdate p) mod 4294967296) /\
  (LastUpdate p <= now ->
   (ShouldUpdate p now = true <-> now - LastUpdate p > Interval p)) /\
  ShouldUpdate (set_LastUpdate p now) now = false /\
  ShouldUpdate (AfterUpdate p now) now = false /\
  (Interval p = 0 -> (ShouldUpdate p now = true <-> now <> LastUpdate p)).
Proof.
  unfold is_uint32. intros Hn Hl Hi.
  split; [|split; [|split; [|split]]].
  - apply ShouldUpdate_elapsed.
  - intros Hle. rewrite ShouldUpdate_elapsed, to_uint32_small; lia.
  - unfold ShouldUpdate. cbn. rewrite Z.sub_diag.
    change (to_uint32 0) with 0. branches; lia.
  - unfold AfterUpdate.
    destruct (Increment_frame (set_LastUpdate p now)) as (_ & E1 & E2 & _).
    unfold ShouldUpdate. rewrite E1, E2. cbn. rewrite Z.sub_diag.
    change (to_uint32 0) with 0. branches; lia.
  - intros H0. rewrite ShouldUpdate_elapsed, H0. split.
    + intros H ->. rewrite Z.sub_diag in H.
      change (to_uint32 0) with 0 in H. lia.
    + intros Hne.
      assert (to_uint32 (now - LastUpdate p) <> 0) as Hnz.
      { unfold to_uint32. intros E. apply Z.mod_divide in E; [|lia].
        destruct E as [q E]. lia. }
      pose proof (Z.mod_pos_bound (now - LastUpdate p) 4294967296 ltac:(lia)).
      unfold to_uint32 in *. lia.
Qed.

Lemma ShouldUpdate_gate_witness :
  ShouldUpdate (NeoPattern_new ColorWipe 50 65280 0 8 FORWARD) 51 = true <->
  51 - 0 > 50.
Proof.
  apply (ShouldUpdate_gate (NeoPattern_new ColorWipe 50 65280 0 8 FORWARD) 51);
    cbn; unfold is_uint32; lia.
Defined.

(** *** The hue wheel *)

(** C6, first half.  [Wheel(0)] is not blue: the input is reversed to 255,
    which lies in the third segment, at its last position. *)
Lemma Wheel_zero_is_not_blue :
  Wheel 0 = 16711680 /\ Color 0 0 255 = 255 /\ Wheel 0 <> Color 0 0 255.
Proof. repeat split. discriminate. Qed.

(** C6, as the code has it.  The input [WheelPos] is reversed to
    [pos = 255 - WheelPos]; the positions 0..84, 85..169 and 170..255 form
    three segments, on each of which one channel goes down from 255 and
    another up from 0 by 3 per position.  [Wheel 0] is pure red, [Wheel 85]
    pure green and [Wheel 170] pure blue. *)
Theorem Wheel_segments (WheelPos : Z) :
  0 <= WheelPos < 256 ->
  Wheel WheelPos =
    (if 255 - WheelPos <? 85 then
       Color (255 - (255 - WheelPos) * 3) 0 ((255 - WheelPos) * 3)
     else if 255 - WheelPos <? 170 then
       Color 0 ((255 - WheelPos - 85) * 3) (255 - (255 - WheelPos - 85) * 3)
     else
       Color ((255 - WheelPos - 170) * 3) (255 - (255 - WheelPos - 170) * 3) 0) /\
  Wheel 0 = Color 255 0 0 /\
  Wheel 85 = Color 0 255 0 /\
  Wheel 170 = Color 0 0 255.
Proof.
  intros H. split; [|repeat split].
  unfold Wheel. rewrite (to_uint8_small (255 - WheelPos)) by lia.
  branches; try lia; try reflexivity.
  all: now rewrite to_uint8_small by lia.
Qed.

Lemma Wheel_segments_witness :
  Wheel 100 =
    (if 255 - 100 <? 85 then
       Color (255 - (255 - 100) * 3) 0 ((255 - 100) * 3)
     else if 255 - 100 <? 170 then
       Color 0 ((255 - 100 - 85) * 3) (255 - (255 - 100 - 85) * 3)
     else
       Color ((255 - 100 - 170) * 3) (255 - (255 - 100 - 170) * 3) 0).
Proof. apply (Wheel_segments 100). lia. Defined.

(** *** Pattern identity *)

(** C10.  [IsActive(pattern)] is the comparison of the two pointers and
    nothing else.  On a new controller, after [Stop()], and in every state
    without a pattern attached, [IsActive(NULL)] is true while [IsActive()]
    is false. *)
Theorem IsActive_null (w : World) (n : nat) (clk : nat -> Z) :
  (forall ptr, IsActive_pattern w ptr = true <-> ActivePattern w = ptr) /\
  (IsActive_pattern (NeoPatterns_new n clk) None = true /\
   IsActive (NeoPatterns_new n clk) = false) /\
  (exists w', Stop w = Some (tt, w') /\
              IsActive_pattern w' None = true /\ IsActive w' = false) /\
  (ActivePattern w = None ->
   IsActive_pattern w None = true /\ IsActive w = false).
Proof.
  split; [|split; [|split]].
  - intros ptr. unfold IsActive_pattern. apply bool_decide_eq_true.
  - split; reflexivity.
  - eexists. split; [reflexivity|]. split; reflexivity.
  - intros H. unfold IsActive_pattern, IsActive. rewrite H. split; reflexivity.
Qed.

Lemma IsActive_null_witness :
  IsActive_pattern (mkWorld [] None [255; 0] [] (fun _ => 0) 0) None = true /\
  IsActive (mkWorld [] None [255; 0] [] (fun _ => 0) 0) = false.
Proof.
  apply (IsActive_null (mkWorld [] None [255; 0] [] (fun _ => 0) 0) 0 (fun _ => 0)).
  reflexivity.
Defined.

(** *** Construction with no steps *)

(** C8, first half.  A [Fade] of zero steps is constructed like any other:
    the call returns the new object, whose [TotalSteps] is 0. *)
Lemma Fade_new_zero_steps_accepted :
  Fade_new 50 16711680 255 0 FORWARD (NeoPatterns_new 8 (fun _ => 0)) =
    Some (Some 0%nat,
          mkWorld [mkNeoPattern Fade 50 0 16711680 255 0 0 FORWARD 0] None
                  (replicate 8 0) [] (fun _ => 0) 0).
Proof. reflexivity. Qed.

(** C8, as the code has it.  No constructor looks at [totalSteps]: with 0
    steps the object is built as with any other count, index and last update
    at 0, and construction succeeds.  The zero shows at run time only: the
    frame computation of a [Fade] with no steps divides by zero, and so does
    the controller's [Update] once the gate of such a pattern opens. *)
Theorem zero_steps_not_rejected (iw : IntWidth) (w : World) :
  (forall k interval color1 color2 dir,
     NeoPattern_new k interval color1 color2 0 dir =
       mkNeoPattern k interval 0 color1 color2 0 0 dir 0) /\
  (forall interval color1 color2 dir,
     Fade_new interval color1 color2 0 dir w =
       Some (Some (length (heap w)),
             set_heap w (heap w ++ [NeoPattern_new Fade interval color1 color2 0 dir]))) /\
  (forall a p,
     heap w !! a = Some p -> Kind p = Fade -> TotalSteps p = 0 ->
     Pattern_Update iw (Some a) w = None /\
     (ActivePattern w = Some a -> gate_open w = true -> Update iw w = None)).
Proof.
  split; [|split].
  - reflexivity.
  - reflexivity.
  - intros a p Hp Hk Ht.
    assert (forall w', heap w' = heap w -> Pattern_Update iw (Some a) w' = None) as F.
    { intros w' E. unfold Pattern_Update, bind, deref. rewrite E, Hp, Hk.
      unfold Fade_Update, bind, lift, Fade_channel. now rewrite Ht. }
    split; [now apply F|].
    intros Ha Hg. unfold gate_open in Hg. rewrite Ha, Hp in Hg.
    unfold Update, bind, get, when, IsActive, deref, millis. rewrite Ha, Hp.
    rewrite Hg. now rewrite F.
Qed.

Lemma zero_steps_not_rejected_witness :
  Pattern_Update Int32 (Some 0%nat)
    (mkWorld [NeoPattern_new Fade 50 16711680 255 0 FORWARD] (Some 0%nat)
             (replicate 8 0) [] (fun _ => 51) 0) = None /\
  Update Int32
    (mkWorld [NeoPattern_new Fade 50 16711680 255 0 FORWARD] (Some 0%nat)
             (replicate 8 0) [] (fun _ => 51) 0) = None.
Proof.
  destruct (zero_steps_not_rejected Int32
    (mkWorld [NeoPattern_new Fade 50 16711680 255 0 FORWARD] (Some 0%nat)
             (replicate 8 0) [] (fun _ => 51) 0)) as (_ & _ & R).
  destruct (R 0%nat (NeoPattern_new Fade 50 16711680 255 0 FORWARD)) as [R1 R2];
    [reflexivity | reflexivity | reflexivity |].
  split; [exact R1 | apply R2; reflexivity].
Defined.

(** *** Frame computations only draw *)

Lemma draws_ret {A} (a : A) : draws (ret a).
Proof. intros w x w' [= _ <-]. auto. Qed.

Lemma draws_get : draws get.
Proof. intros w x w' [= _ <-]. auto. Qed.

Lemma draws_lift {A} (o : option A) : draws (lift o).
Proof. intros w x w' H. unfold lift in H. destruct o; [|discriminate].
  injection H as _ <-. auto. Qed.

Lemma draws_bind {A B} (m : M A) (k : A -> M B) :
  draws m -> (forall x, draws (k x)) -> draws (bind m k).
Proof.
  intros Hm Hk w b w' H. unfold bind in H.
  destruct (m w) as [[x w1]|] eqn:E; [|discriminate].
  destruct (Hm _ _ _ E) as (h1 & a1 & c1 & r1 & l1).
  destruct (Hk x _ _ _ H) as (h2 & a2 & c2 & r2 & l2).
  repeat split; congruence.
Qed.

Lemma draws_setPixelColor (n c : Z) : draws (setPixelColor n c).
Proof.
  intros w x w' [= _ <-].
  destruct ((0 <=? n) && (n <? numPixels w)); cbn; auto.
  repeat split. apply length_insert.
Qed.

Lemma draws_show : draws show.
Proof. intros w x w' [= _ <-]. cbn. auto. Qed.

Lemma draws_for_each {A} (body : A -> M unit) (l : list A) :
  (forall x, draws (body x)) -> draws (for_each body l).
Proof.
  intros Hb. induction l as [|x l IH]; cbn.
  - apply draws_ret.
  - apply draws_bind; auto.
Qed.

Lemma draws_for_pixels (iw : IntWidth) (body : Z -> M unit) :
  (forall i, draws (body i)) -> draws (for_pixels iw body).
Proof.
  intros Hb. unfold for_pixels. apply draws_bind; [apply draws_get|].
  intros w0. destruct (int_ok iw (numPixels w0)).
  - now apply draws_for_each.
  - intros w x w' [=].
Qed.

Lemma draws_ColorSet (iw : IntWidth) (color : Z) : draws (ColorSet iw color).
Proof.
  unfold ColorSet. apply draws_bind.
  - apply draws_for_pixels. intros i. apply draws_setPixelColor.
  - intros _. apply draws_show.
Qed.

Create HintDb draws.
#[local] Hint Resolve draws_ret draws_get draws_lift draws_setPixelColor
  draws_show draws_ColorSet : draws.

Lemma draws_Pattern_Update (iw : IntWidth) (ptr : option nat) :
  draws (Pattern_Update iw ptr).
Proof.
  unfold Pattern_Update. apply draws_bind.
  - intros w p w' H. unfold deref in H.
    destruct ptr as [a|]; [|discriminate].
    destruct (heap w !! a); [|discriminate]. injection H as _ <-. auto.
  - intros p. destruct (Kind p).
    + apply draws_for_pixels. intros i. apply draws_bind; auto with draws.
      intros w0. destruct (int_ok iw (i * 256)); auto with draws.
      intros w x w' [=].
    + apply draws_for_pixels. auto with draws.
    + apply draws_setPixelColor.
    + apply draws_for_pixels. intros i. apply draws_bind; auto with draws.
    + apply draws_ColorSet.
    + unfold Fade_Update. do 3 (apply draws_bind; [auto with draws|intros ?]).
      apply draws_ColorSet.
Qed.

(** *** The controller's update *)

Lemma Update_detached (iw : IntWidth) (w : World) :
  ActivePattern w = None -> Update iw w = Some (tt, w).
Proof. intros H. unfold Update, bind, get, when, IsActive. now rewrite H. Qed.

Section UpdateAttached.

Variable iw : IntWidth.
Variable w : World.
Variable a : nat.
Variable p : NeoPattern.
Hypothesis attached : ActivePattern w = Some a.
Hypothesis object : heap w !! a = Some p.

(** The gate is closed: the clock was read, nothing else happened. *)
Lemma Update_gate_closed :
ShouldUpdate p (to_uint32 (clock w (reads w))) = false ->
Update iw w = Some (tt, set_reads w (S (reads w))).
Proof.
intros Hg. unfold Update, bind, get, when, IsActive, deref, millis.
now rewrite attached, object, Hg.
Qed.

(** The gate is open: the three calls of the body, in their order. *)
Lemma Update_gate_open :
ShouldUpdate p (to_uint32 (clock w (reads w))) = true ->
Update iw w =
  (Pattern_Update iw (Some a) >> show >> Pattern_AfterUpdate (Some a))
    (set_reads w (S (reads w))).
Proof.
intros Hg. unfold Update, bind, get, when, IsActive, deref, millis.
now rewrite attached, object, Hg.
Qed.

(** The body faults only if the frame computation does. *)
Lemma Update_frame_fault :
ShouldUpdate p (to_uint32 (clock w (reads w))) = true ->
Pattern_Update iw (Some a) (set_reads w (S (reads w))) = None ->
Update iw w = None.
Proof.
intros Hg F. rewrite Update_gate_open by exact Hg. unfold bind. now rewrite F.
Qed.

(** The world after an applied update, from the frame computed for [p]. *)
Lemma Update_applied (frame : World) :
ShouldUpdate p (to_uint32 (clock w (reads w))) = true ->
Pattern_Update iw (Some a) (set_reads w (S (reads w))) = Some (tt, frame) ->
Update iw w =
  Some (tt, mkWorld
              (<[a := Increment
                        (set_LastUpdate p (to_uint32 (clock w (S (reads w)))))]>
                 (heap w))
              (Some a)
              (pixels frame)
              (pixels frame :: shown frame)
              (clock w)
              (S (S (reads w)))).
Proof.
intros Hg F.
destruct (draws_Pattern_Update iw (Some a) _ _ _ F) as (h & ac & c & r & _).
cbn in h, ac, c, r.
rewrite Update_gate_open by exact Hg. unfold bind at 1 2. rewrite F.
unfold show, Pattern_AfterUpdate, call, millis, deref, modify, bind.
cbn. rewrite h, object. unfold set_heap, set_reads, set_shown. cbn.
rewrite h, c, r, ac, attached. reflexivity.
Qed.

End UpdateAttached.

(** C4.  [Update()] on a controller without a pattern returns at once and
    leaves the world as it is.  With the pattern [p] attached at [a]: when
    [ShouldUpdate] is false at the clock reading, the objects, the buffer
    and the strip are unchanged (the reading is consumed); when it is true,
    the frame is computed from [p] as it is before it advances, that frame
    is transmitted, and then [p] is marked with the next clock reading and
    advanced; a fault of the frame computation is the only fault. *)
Theorem Update_protocol (iw : IntWidth) (w : World) :
  (ActivePattern w = None -> Update iw w = Some (tt, w)) /\
  (forall a p,
     ActivePattern w = Some a -> heap w !! a = Some p ->
     (ShouldUpdate p (to_uint32 (clock w (reads w))) = false ->
      Update iw w = Some (tt, set_reads w (S (reads w)))) /\
     (ShouldUpdate p (to_uint32 (clock w (reads w))) = true ->
      Update iw w =
        (Pattern_Update iw (Some a) >> show >> Pattern_AfterUpdate (Some a))
          (set_reads w (S (reads w))) /\
      (Pattern_Update iw (Some a) (set_reads w (S (reads w))) = None ->
       Update iw w = None) /\
      (forall frame,
         Pattern_Update iw (Some a) (set_reads w (S (reads w))) = Some (tt, frame) ->
         Update iw w =
           Some (tt, mkWorld
                       (<[a := Increment
                                 (set_LastUpdate p (to_uint32 (clock w (S (reads w)))))]>
                          (heap w))
                       (Some a)
                       (pixels frame)
                       (pixels frame :: shown frame)
                       (clock w)
                       (S (S (reads w))))))).
Proof.
  split; [apply Update_detached|].
  intros a p Ha Hp. split; [exact (Update_gate_closed iw w a p Ha Hp)|].
  intros Hg. split; [exact (Update_gate_open iw w a p Ha Hp Hg)|].
  split; [exact (Update_frame_fault iw w a p Ha Hp Hg)|].
  intros frame F. exact (Update_applied iw w a p Ha Hp frame Hg F).
Qed.

Lemma Update_protocol_witness :
  Update Int16
    (mkWorld [NeoPattern_new ColorWipe 50 65280 0 8 FORWARD] (Some 0%nat)
             (replicate 8 0) [] (fun k => 100 * Z.of_nat k + 100) 0) =
  Some (tt,
        mkWorld [mkNeoPattern ColorWipe 50 200 65280 0 8 1 FORWARD 0] (Some 0%nat)
                (65280 :: replicate 7 0) [65280 :: replicate 7 0]
                (fun k => 100 * Z.of_nat k + 100) 2).
Proof.
  destruct (Update_protocol Int16
    (mkWorld [NeoPattern_new ColorWipe 50 65280 0 8 FORWARD] (Some 0%nat)
             (replicate 8 0) [] (fun k => 100 * Z.of_nat k + 100) 0)) as [_ H].
  destruct (H 0%nat (NeoPattern_new ColorWipe 50 65280 0 8 FORWARD)
              eq_refl eq_refl) as [_ G].
  destruct (G eq_refl) as (_ & _ & R).
  exact (R (mkWorld [NeoPattern_new ColorWipe 50 65280 0 8 FORWARD] (Some 0%nat)
                    (65280 :: replicate 7 0) []
                    (fun k => 100 * Z.of_nat k + 100) 1) eq_refl).
Defined.

(** *** Packed colors *)

Lemma land_shiftl_low (hi lo k : Z) :
  0 <= k -> 0 <= lo < 2 ^ k -> Z.land (Z.shiftl hi k) lo = 0.
Proof.
  intros Hk Hlo. apply Z.bits_inj'. intros n Hn.
  rewrite Z.land_spec, Z.bits_0.
  destruct (Z.lt_ge_cases n k).
  - now rewrite Z.shiftl_spec_low.
  - rewrite <- (Z.mod_small lo (2 ^ k)) by lia.
    rewrite Z.mod_pow2_bits_high by lia. apply andb_false_r.
Qed.

Lemma lor_shiftl_low (hi lo k : Z) :
  0 <= k -> 0 <= lo < 2 ^ k -> Z.lor (Z.shiftl hi k) lo = hi * 2 ^ k + lo.
Proof.
  intros Hk Hlo. pose proof (land_shiftl_low hi lo k Hk Hlo) as D.
  rewrite <- Z.lxor_lor, <- Z.add_nocarry_lxor by exact D.
  now rewrite Z.shiftl_mul_pow2.
Qed.

(** The packing of three bytes, in arithmetic. *)
Lemma Color_bytes (r g b : Z) :
  is_uint8 r -> is_uint8 g -> is_uint8 b ->
  Color r g b = r * 65536 + g * 256 + b.
Proof.
  unfold is_uint8, Color. intros Hr Hg Hb.
  rewrite !to_uint8_small by assumption.
  replace (Z.shiftl r 16) with (Z.shiftl (Z.shiftl r 8) 8)
    by (rewrite Z.shiftl_shiftl by lia; reflexivity).
  rewrite <- Z.shiftl_lor.
  rewrite (lor_shiftl_low r g 8) by lia.
  rewrite (lor_shiftl_low (r * 2 ^ 8 + g) b 8) by lia.
  change (2 ^ 8) with 256. lia.
Qed.

(** The three channels, in arithmetic. *)
Lemma Red_arith (c : Z) : Red c = (c / 65536) mod 256.
Proof.
  unfold Red. change 255 with (Z.ones 8).
  rewrite Z.land_ones, Z.shiftr_div_pow2 by lia. reflexivity.
Qed.

Lemma Green_arith (c : Z) : Green c = (c / 256) mod 256.
Proof.
  unfold Green. change 255 with (Z.ones 8).
  rewrite Z.land_ones, Z.shiftr_div_pow2 by lia. reflexivity.
Qed.

Lemma Blue_arith (c : Z) : Blue c = c mod 256.
Proof.
  unfold Blue. change 255 with (Z.ones 8).
  rewrite Z.land_ones by lia. reflexivity.
Qed.

Lemma channel_is_byte (c : Z) :
  is_uint8 (Red c) /\ is_uint8 (Green c) /\ is_uint8 (Blue c).
Proof.
  rewrite Red_arith, Green_arith, Blue_arith. unfold is_uint8.
  repeat split; apply Z.mod_pos_bound; lia.
Qed.

Lemma channels_of_Color (r g b : Z) :
  is_uint8 r -> is_uint8 g -> is_uint8 b ->
  Red (Color r g b) = r /\ Green (Color r g b) = g /\ Blue (Color r g b) = b.
Proof.
  intros Hr Hg Hb. rewrite Red_arith, Green_arith, Blue_arith.
  rewrite Color_bytes by assumption. unfold is_uint8 in *.
  repeat split; Z.div_mod_to_equations; lia.
Qed.

Lemma Color_of_channels (c : Z) :
  0 <= c < 16777216 -> Color (Red c) (Green c) (Blue c) = c.
Proof.
  intros Hc. destruct (channel_is_byte c) as (Hr & Hg & Hb).
  rewrite Color_bytes by assumption.
  rewrite Red_arith, Green_arith, Blue_arith.
  Z.div_mod_to_equations. lia.
Qed.

(** *** Setting the whole strip *)

(** The loop over the pixels [j, j + m) that writes one color. *)
Lemma for_each_setPixelColor (c : Z) (m : nat) :
  forall (j : nat) (w : World),
    (j + m <= length (pixels w))%nat ->
    exists px,
      for_each (fun i => setPixelColor i c) (Z.of_nat <$> seq j m) w
        = Some (tt, set_pixels w px) /\
      length px = length (pixels w) /\
      forall i, px !! i = if bool_decide (j <= i < j + m)%nat then Some c
                          else pixels w !! i.
Proof.
  induction m as [|m IH]; intros j w Hlen.
  - exists (pixels w). split; [destruct w; reflexivity|]. split; [reflexivity|].
    intros i. rewrite bool_decide_eq_false_2 by lia. reflexivity.
  - cbn [seq fmap list_fmap for_each]. unfold bind at 1.
    assert (setPixelColor (Z.of_nat j) c w
            = Some (tt, set_pixels w (<[j := c]> (pixels w)))) as E.
    { unfold setPixelColor, modify, numPixels.
      replace ((0 <=? Z.of_nat j) && (Z.of_nat j <? Z.of_nat (length (pixels w))))
        with true by (symmetry; apply andb_true_intro; split;
                      [apply Z.leb_le | apply Z.ltb_lt]; lia).
      now rewrite Nat2Z.id. }
    rewrite E.
    assert (S j + m <= length (pixels (set_pixels w (<[j := c]> (pixels w)))))%nat
      as Hlen' by (cbn; rewrite length_insert; lia).
    destruct (IH (S j) (set_pixels w (<[j := c]> (pixels w))) Hlen')
      as (px & R & L & P).
    exists px. split; [exact R|]. cbn in L, P. rewrite length_insert in L.
    split; [exact L|]. intros i. rewrite P.
    destruct (decide (i = j)) as [->|ne].
    + rewrite bool_decide_eq_false_2 by lia.
      rewrite bool_decide_eq_true_2 by lia.
      apply list_lookup_insert_eq. lia.
    + rewrite list_lookup_insert_ne by congruence.
      destruct (decide (S j <= i < S j + m)%nat).
      * rewrite !bool_decide_eq_true_2 by lia. reflexivity.
      * rewrite !bool_decide_eq_false_2 by lia. reflexivity.
Qed.

(** [ColorSet] writes the color everywhere and transmits the buffer. *)
Lemma ColorSet_all (iw : IntWidth) (color : Z) (w : World) :
  int_ok iw (numPixels w) = true ->
  ColorSet iw color w =
    Some (tt, mkWorld (heap w) (ActivePattern w)
                (replicate (length (pixels w)) color)
                (replicate (length (pixels w)) color :: shown w)
                (clock w) (reads w)).
Proof.
  intros Hn. unfold ColorSet, for_pixels, bind at 1 2, get. rewrite Hn.
  destruct (for_each_setPixelColor color (length (pixels w)) 0 w ltac:(lia))
    as (px & R & L & P).
  rewrite R. cbn.
  assert (px = replicate (length (pixels w)) color) as ->; [|reflexivity].
  apply list_eq. intros i. rewrite P.
  destruct (decide (i < length (pixels w))%nat).
  - rewrite bool_decide_eq_true_2 by lia. symmetry. now apply lookup_replicate_2.
  - rewrite bool_decide_eq_false_2 by lia.
    rewrite lookup_ge_None_2 by lia. symmetry.
    apply lookup_replicate_None. lia.
Qed.

(** *** The cross-fade *)

Lemma interpolate_byte (c1 c2 T I : Z) :
  is_uint8 c1 -> is_uint8 c2 -> 0 < T -> 0 <= I <= T ->
  is_uint8 (interpolate c1 c2 T I).
Proof.
  unfold is_uint8, interpolate. intros H1 H2 HT HI. split.
  - apply Z.div_pos; nia.
  - apply Z.div_lt_upper_bound; nia.
Qed.

(** Within the cycle the channel computed by the code is the one of the
    spec: on a 32-bit [int] for every step count, on a 16-bit [int] as long
    as 255 times the step count fits 16 bits. *)
Lemma Fade_channel_interpolate (iw : IntWidth) (c1 c2 : Z) (p : NeoPattern) :
  is_uint8 c1 -> is_uint8 c2 ->
  1 <= TotalSteps p < 65536 -> 0 <= Index p < TotalSteps p ->
  iw = Int32 \/ TotalSteps p <= 257 ->
  Fade_channel iw c1 c2 p = Some (interpolate c1 c2 (TotalSteps p) (Index p)).
Proof.
  intros H1 H2 HT HI Hw.
  pose proof (interpolate_byte c1 c2 (TotalSteps p) (Index p) H1 H2
                ltac:(lia) ltac:(lia)) as B.
  unfold Fade_channel. destruct (Z.eqb_spec (TotalSteps p) 0); [lia|].
  unfold is_uint8, interpolate in *. f_equal.
  assert (forall x, 0 <= x ->
            (iw = Int32 \/ x < 65536) -> promoted iw x = x) as P.
  { intros x Hx [->|Hb]; [reflexivity|].
    destruct iw; [apply to_uint16_small; lia | reflexivity]. }
  assert (iw = Int32 \/
          c1 * (TotalSteps p - Index p) + c2 * Index p < 65536) as Hs
    by (destruct Hw; [left; assumption | right; nia]).
  rewrite (P (TotalSteps p - Index p)) by first [lia | right; lia].
  rewrite (P (c1 * (TotalSteps p - Index p)))
    by first [nia | destruct Hs; [left; assumption | right; nia]].
  rewrite (P (c2 * Index p))
    by first [nia | destruct Hs; [left; assumption | right; nia]].
  rewrite P by first [nia | exact Hs].
  rewrite Z.quot_div_nonneg by nia.
  apply to_uint8_small. exact B.
Qed.

Lemma interpolate_start (c1 c2 T : Z) : 0 < T -> interpolate c1 c2 T 0 = c1.
Proof.
  intros HT. unfold interpolate.
  replace (c1 * (T - 0) + c2 * 0) with (c1 * T) by lia.
  apply Z.div_mul. lia.
Qed.

Lemma interpolate_half (c1 c2 T : Z) :
  0 < T -> T mod 2 = 0 -> interpolate c1 c2 T (T / 2) = (c1 + c2) / 2.
Proof.
  intros HT He. unfold interpolate.
  assert (T = 2 * (T / 2)) as E by (Z.div_mod_to_equations; lia).
  set (h := T / 2) in *. rewrite E.
  replace (c1 * (2 * h - h) + c2 * h) with ((c1 + c2) * h) by lia.
  apply Z.div_mul_cancel_r; lia.
Qed.

(** C7, first half.  With an odd number of steps the frame at index
    [TotalSteps / 2] is not the midpoint: from black to white in 3 steps,
    index 1 gives a third of the way (0x555555), not the half (0x7F7F7F). *)
Lemma Fade_odd_steps_not_midpoint :
  pixels <$> (snd <$>
    Fade_Update Int32
      (set_Index (NeoPattern_new Fade 50 0 16777215 3 FORWARD) (3 / 2))
      (NeoPatterns_new 8 (fun _ => 0)))
    = Some (replicate 8 5592405) /\
  midpoint 0 16777215 = 8355711.
Proof. split; reflexivity. Qed.

(** C7, as the code has it.  For two 24-bit colors, a step count of at
    least 1 and an index inside the cycle, [Fade]'s frame computation sets the whole
    strip to the color whose channels are those of the spec's cross-fade,
    and transmits it; this holds on a 32-bit [int] for every step count and
    on a 16-bit [int] up to 257 steps, the strip's length being an [int].
    At index 0 the color is [Color1]; when the step count is even, at index
    [TotalSteps / 2] it is the truncated channel-wise midpoint. *)
Theorem Fade_frame (iw : IntWidth) (p : NeoPattern) (w : World) :
  1 <= TotalSteps p < 65536 -> 0 <= Index p < TotalSteps p ->
  0 <= Color1 p < 16777216 -> 0 <= Color2 p < 16777216 ->
  iw = Int32 \/ TotalSteps p <= 257 ->
  int_ok iw (numPixels w) = true ->
  Fade_Update iw p w =
    Some (tt, mkWorld (heap w) (ActivePattern w)
                (replicate (length (pixels w)) (crossfade p))
                (replicate (length (pixels w)) (crossfade p) :: shown w)
                (clock w) (reads w)) /\
  (Red (crossfade p) =
     interpolate (Red (Color1 p)) (Red (Color2 p)) (TotalSteps p) (Index p) /\
   Green (crossfade p) =
     interpolate (Green (Color1 p)) (Green (Color2 p)) (TotalSteps p) (Index p) /\
   Blue (crossfade p) =
     interpolate (Blue (Color1 p)) (Blue (Color2 p)) (TotalSteps p) (Index p)) /\
  (Index p = 0 -> crossfade p = Color1 p) /\
  (TotalSteps p mod 2 = 0 -> Index p = TotalSteps p / 2 ->
   crossfade p = midpoint (Color1 p) (Color2 p)).
Proof.
  intros HT HI H1 H2 Hw Hn.
  destruct (channel_is_byte (Color1 p)) as (R1 & G1 & B1).
  destruct (channel_is_byte (Color2 p)) as (R2 & G2 & B2).
  split; [|split; [|split]].
  - unfold Fade_Update, bind, lift.
    rewrite !Fade_channel_interpolate by assumption.
    now rewrite ColorSet_all by exact Hn.
  - unfold crossfade.
    apply (channels_of_Color
             (interpolate (Red (Color1 p)) (Red (Color2 p)) (TotalSteps p) (Index p))
             (interpolate (Green (Color1 p)) (Green (Color2 p)) (TotalSteps p) (Index p))
             (interpolate (Blue (Color1 p)) (Blue (Color2 p)) (TotalSteps p) (Index p)));
      apply interpolate_byte; auto; lia.
  - intros E. unfold crossfade. rewrite E, !interpolate_start by lia.
    now apply Color_of_channels.
  - intros He E. unfold crossfade, midpoint.
    rewrite E, !interpolate_half by (auto; lia). reflexivity.
Qed.

Lemma Fade_frame_witness :
  Fade_Update Int16
    (set_Index (NeoPattern_new Fade 50 16711680 255 4 FORWARD) 2)
    (NeoPatterns_new 3 (fun _ => 0)) =
  Some (tt, mkWorld [] None (replicate 3 8323199) [replicate 3 8323199]
              (fun _ => 0) 0) /\
  crossfade (set_Index (NeoPattern_new Fade 50 16711680 255 4 FORWARD) 2) =
    midpoint 16711680 255.
Proof.
  destruct (Fade_frame Int16
              (set_Index (NeoPattern_new Fade 50 16711680 255 4 FORWARD) 2)
              (NeoPatterns_new 3 (fun _ => 0))) as (F & _ & _ & M).
  - change (1 <= 4 < 65536). lia.
  - change (0 <= 2 < 4). lia.
  - change (0 <= 16711680 < 16777216). lia.
  - change (0 <= 255 < 16777216). lia.
  - right. change (4 <= 257). lia.
  - reflexivity.
  - split; [exact F | apply M; reflexivity].
Defined.

(** *** The color wipe *)

Section ColorWipe.

Variable iw : IntWidth.
Variable N : nat.
Variable c : Z.
Variable a : nat.
Hypothesis strip : 1 <= Z.of_nat N < 65536.

Lemma gate_open_attached (w : World) (p : NeoPattern) :
  ActivePattern w = Some a -> heap w !! a = Some p ->
  gate_open w = ShouldUpdate p (to_uint32 (clock w (reads w))).
Proof. intros Ha Hp. unfold gate_open. now rewrite Ha, Hp. Qed.

(** One turn of the loop: a closed gate changes nothing of the wipe, an
    open one paints the pixel under the index and steps. *)
Lemma Update_wiping (k : nat) (w : World) :
  wiping N c a k w ->
  exists w', Update iw w = Some (tt, w') /\
             wiping N c a (if gate_open w then S k else k) w'.
Proof.
  intros (Ha & Hlen & Hpx & p & Hp & HK & HC & HT & HD & HI & HQ).
  rewrite (gate_open_attached w p Ha Hp).
  destruct (ShouldUpdate p (to_uint32 (clock w (reads w)))) eqn:G.
  - pose proof (fun frame => Update_applied iw w a p Ha Hp frame G) as Uframe.
    pose proof (Z.mod_pos_bound (Z.of_nat k) (Z.of_nat N) ltac:(lia)) as B.
    set (j := Z.to_nat (Index p)).
    assert (j < N)%nat as Hj by (unfold j; lia).
    assert (Pattern_Update iw (Some a) (set_reads w (S (reads w)))
            = Some (tt, set_pixels (set_reads w (S (reads w)))
                          (<[j := c]> (pixels w)))) as F.
    { unfold Pattern_Update, bind, deref. cbn. rewrite Hp, HK.
      unfold ColorWipe_Update, setPixelColor, modify, numPixels. cbn.
      rewrite HC, Hlen.
      replace ((0 <=? Index p) && (Index p <? Z.of_nat N)) with true
        by (symmetry; apply andb_true_intro; split;
            [apply Z.leb_le | apply Z.ltb_lt]; lia).
      reflexivity. }
    eexists. split; [exact (Uframe _ F)|]. unfold wiping. cbn.
    split; [reflexivity|]. split; [now rewrite length_insert|]. split.
    + intros i Hi HiN. destruct (decide (i = j)) as [->|ne].
      * apply list_lookup_insert_eq. lia.
      * rewrite list_lookup_insert_ne by congruence.
        apply Hpx; [|exact HiN].
        destruct (decide (k < N)%nat); [|lia].
        assert (Index p = Z.of_nat k) by (rewrite HI; apply Z.mod_small; lia).
        unfold j in ne. lia.
    + exists (Increment (set_LastUpdate p (to_uint32 (clock w (S (reads w)))))).
      split; [apply list_lookup_insert_eq; now apply lookup_lt_Some in Hp|].
      rewrite Increment_forward by (cbn; auto; lia). cbn.
      replace (Z.of_nat (S k)) with (Z.of_nat k + 1) by lia.
      rewrite succ_mod, succ_div by lia. rewrite HI, HT.
      destruct (Z.eqb_spec (Z.of_nat k mod Z.of_nat N + 1) (Z.of_nat N));
        cbn; repeat split; auto; lia.
  - eexists. split; [exact (Update_gate_closed iw w a p Ha Hp G)|].
    repeat split; auto. exists p. repeat split; auto.
Qed.

(** Any number of turns: the wipe has advanced by the number of applied
    updates. *)
Lemma ticks_wiping (n : nat) :
  forall (k : nat) (w : World),
    wiping N c a k w ->
    exists w', ticks iw n w = Some (tt, w') /\
               wiping N c a (k + applied iw n w) w'.
Proof.
  induction n as [|n IH]; intros k w Hw.
  - exists w. split; [reflexivity|]. cbn. now rewrite Nat.add_0_r.
  - destruct (Update_wiping k w Hw) as (w1 & U & W1).
    destruct (IH _ w1 W1) as (w' & T & W').
    exists w'. cbn [ticks applied]. unfold bind. rewrite U. split; [exact T|].
    destruct (gate_open w);
      [replace (k + (1 + applied iw n w1))%nat with (S k + applied iw n w1)%nat by lia
      |replace (k + (0 + applied iw n w1))%nat with (k + applied iw n w1)%nat by lia];
      exact W'.
Qed.

(** After exactly [N] applied updates the strip is full, the pattern has
    completed once and is back on index 0. *)
Lemma wiping_full (w : World) :
  wiping N c a N w ->
  pixels w = replicate N c /\
  exists p, heap w !! a = Some p /\ Completed p = 1%nat /\ Index p = 0.
Proof.
  intros (Ha & Hlen & Hpx & p & Hp & HK & HC & HT & HD & HI & HQ). split.
  - apply list_eq. intros i. destruct (decide (i < N)%nat).
    + rewrite Hpx by lia. symmetry. now apply lookup_replicate_2.
    + rewrite lookup_ge_None_2 by lia. symmetry.
      apply lookup_replicate_None. lia.
  - exists p. split; [exact Hp|].
    rewrite Z.mod_same in HI by lia. rewrite Z.div_same in HQ by lia.
    split; [lia | exact HI].
Qed.

End ColorWipe.

(** C9.  A [ColorWipe] of color 0x00FF00 and interval 50 is constructed on
    a controller of 8 pixels and started.  Whatever the clock and however
    many turns the loop takes, once exactly 8 updates have been applied the
    loop has not faulted, the 8 pixels have the color 0x00FF00 and the
    completion hook has been called once. *)
Theorem ColorWipe_scenario (iw : IntWidth) (clk : nat -> Z) (buf : list Z)
    (n : nat) :
  length buf = 8%nat ->
  let started :=
    mkWorld [NeoPattern_new ColorWipe 50 65280 0 8 FORWARD] (Some 0%nat)
            buf [] clk 0 in
  (let* wipe := ColorWipe_new 50 65280 FORWARD in Start wipe)
    (mkWorld [] None buf [] clk 0) = Some (tt, started) /\
  (applied iw n started = 8%nat ->
   exists w p,
     ticks iw n started = Some (tt, w) /\
     pixels w = replicate 8 65280 /\
     heap w !! 0%nat = Some p /\ Completed p = 1%nat).
Proof.
  intros Hlen started. split.
  - unfold bind, ColorWipe_new, get, new, Start, modify, call, deref, numPixels.
    cbn. rewrite Hlen. reflexivity.
  - intros Happ.
    assert (wiping 8 65280 0 0 started) as W0.
    { repeat split; auto; try lia.
      eexists. repeat split; reflexivity. }
    destruct (ticks_wiping iw 8 65280 0 ltac:(lia) n 0%nat started W0)
      as (w & T & W).
    rewrite Happ in W. cbn in W.
    destruct (wiping_full 8 65280 0 ltac:(lia) w W) as (Hpx & p & Hp & HC & _).
    exists w, p. auto.
Qed.

Lemma ColorWipe_scenario_witness :
  exists w p,
    ticks Int16 9
      (mkWorld [NeoPattern_new ColorWipe 50 65280 0 8 FORWARD] (Some 0%nat)
               (replicate 8 255) [] (fun k => 60 * Z.of_nat k) 0)
      = Some (tt, w) /\
    pixels w = replicate 8 65280 /\
    heap w !! 0%nat = Some p /\ Completed p = 1%nat.
Proof.
  destruct (ColorWipe_scenario Int16 (fun k => 60 * Z.of_nat k) (replicate 8 255) 9
              eq_refl) as [_ H].
  apply H. vm_compute. reflexivity.
Defined.

(** * Further properties *)

(** ** Colors *)

(** X1.  Packing and unpacking are inverse: the three channels of
    [Color r g b] are [r], [g] and [b] when these are bytes, and a 24-bit
    color is the packing of its three channels; every channel of every
    color is a byte. *)
Theorem Color_channels_roundtrip (r g b c : Z) :
  (is_uint8 r -> is_uint8 g -> is_uint8 b ->
   Red (Color r g b) = r /\ Green (Color r g b) = g /\ Blue (Color r g b) = b) /\
  (0 <= c < 16777216 -> Color (Red c) (Green c) (Blue c) = c) /\
  (is_uint8 (Red c) /\ is_uint8 (Green c) /\ is_uint8 (Blue c)).
Proof.
  split; [|split].
  - apply channels_of_Color.
  - apply Color_of_channels.
  - apply channel_is_byte.
Qed.

Lemma Color_channels_roundtrip_witness :
  (Red (Color 18 52 86) = 18 /\ Green (Color 18 52 86) = 52 /\
   Blue (Color 18 52 86) = 86) /\
  Color (Red 1193046) (Green 1193046) (Blue 1193046) = 1193046.
Proof.
  split.
  - apply (proj1 (Color_channels_roundtrip 18 52 86 0)); unfold is_uint8; lia.
  - apply (proj1 (proj2 (Color_channels_roundtrip 0 0 0 1193046))). lia.
Defined.

Lemma shiftr_one_byte (x : Z) : is_uint8 x -> is_uint8 (Z.shiftr x 1).
Proof.
  unfold is_uint8. intros H. rewrite Z.shiftr_div_pow2 by lia.
  change (2 ^ 1) with 2. split.
  - apply Z.div_pos; lia.
  - apply Z.div_lt_upper_bound; lia.
Qed.

Lemma DimColor_channels (c : Z) :
  Red (DimColor c) = Red c / 2 /\
  Green (DimColor c) = Green c / 2 /\
  Blue (DimColor c) = Blue c / 2.
Proof.
  destruct (channel_is_byte c) as (R & G & B).
  destruct (channels_of_Color (Z.shiftr (Red c) 1) (Z.shiftr (Green c) 1)
              (Z.shiftr (Blue c) 1)) as (E1 & E2 & E3);
    try now apply shiftr_one_byte.
  unfold DimColor. rewrite E1, E2, E3.
  rewrite !Z.shiftr_div_pow2 by lia. auto.
Qed.

(** X2.  [DimColor] halves every channel, rounding down, whatever the
    color: no channel grows, and the result is a 24-bit color even when the
    argument has bits above the three channels. *)
Theorem DimColor_halves (c : Z) :
  (Red (DimColor c) = Red c / 2 /\
   Green (DimColor c) = Green c / 2 /\
   Blue (DimColor c) = Blue c / 2) /\
  (Red (DimColor c) <= Red c /\ Green (DimColor c) <= Green c /\
   Blue (DimColor c) <= Blue c) /\
  0 <= DimColor c < 16777216.
Proof.
  destruct (channel_is_byte c) as (R & G & B). unfold is_uint8 in *.
  destruct (DimColor_channels c) as (E1 & E2 & E3).
  split; [auto|]. split.
  - rewrite E1, E2, E3. repeat split; Z.div_mod_to_equations; lia.
  - unfold DimColor. rewrite Color_bytes by now apply shiftr_one_byte.
    pose proof (shiftr_one_byte _ R). pose proof (shiftr_one_byte _ G).
    pose proof (shiftr_one_byte _ B). unfold is_uint8 in *. lia.
Qed.

Lemma DimColor_iter_channels (n : nat) (c : Z) :
  Red (Nat.iter n DimColor c) = Red c / 2 ^ Z.of_nat n /\
  Green (Nat.iter n DimColor c) = Green c / 2 ^ Z.of_nat n /\
  Blue (Nat.iter n DimColor c) = Blue c / 2 ^ Z.of_nat n.
Proof.
  induction n as [|n (IR & IG & IB)].
  - cbn. rewrite !Z.div_1_r. auto.
  - change (Nat.iter (S n) DimColor c) with (DimColor (Nat.iter n DimColor c)).
    destruct (DimColor_channels (Nat.iter n DimColor c)) as (E1 & E2 & E3).
    rewrite E1, E2, E3, IR, IG, IB.
    replace (2 ^ Z.of_nat (S n)) with (2 ^ Z.of_nat n * 2)
      by (rewrite Nat2Z.inj_succ, Z.pow_succ_r by lia; lia).
    rewrite !Z.div_div by lia. auto.
Qed.

(** X3.  A pixel that is only dimmed goes dark: after [n] calls of
    [DimColor] every channel is the original one divided by [2^n], and
    after eight calls (and any number above) the color is 0, whatever it
    was. *)
Theorem DimColor_fades_out (n : nat) (c : Z) :
  (Red (Nat.iter n DimColor c) = Red c / 2 ^ Z.of_nat n /\
   Green (Nat.iter n DimColor c) = Green c / 2 ^ Z.of_nat n /\
   Blue (Nat.iter n DimColor c) = Blue c / 2 ^ Z.of_nat n) /\
  ((8 <= n)%nat -> Nat.iter n DimColor c = 0).
Proof.
  split; [apply DimColor_iter_channels|].
  intros Hn. destruct n as [|m]; [lia|].
  change (Nat.iter (S m) DimColor c) with (DimColor (Nat.iter m DimColor c)).
  destruct (DimColor_iter_channels m c) as (IR & IG & IB).
  destruct (channel_is_byte c) as (R & G & B). unfold is_uint8 in *.
  assert (128 <= 2 ^ Z.of_nat m) as P.
  { change 128 with (2 ^ 7). apply Z.pow_le_mono_r; lia. }
  assert (forall x, 0 <= x < 256 -> Z.shiftr (x / 2 ^ Z.of_nat m) 1 = 0) as Z0.
  { intros x Hx. rewrite Z.shiftr_div_pow2 by lia. change (2 ^ 1) with 2.
    rewrite Z.div_div by lia. apply Z.div_small. nia. }
  set (x := Nat.iter m DimColor c) in *. unfold DimColor.
  rewrite IR, IG, IB, !Z0 by assumption. reflexivity.
Qed.

Lemma DimColor_fades_out_witness : Nat.iter 9 DimColor 4294967295 = 0.
Proof. apply (DimColor_fades_out 9 4294967295). lia. Defined.

(** X4.  Every color of the wheel is fully saturated: for each byte
    position the three channels add up to 255 and one of them is 0; the
    wheel closes, positions 0 and 255 giving the same red. *)
Theorem Wheel_saturated (WheelPos : Z) :
  0 <= WheelPos < 256 ->
  Red (Wheel WheelPos) + Green (Wheel WheelPos) + Blue (Wheel WheelPos) = 255 /\
  (Red (Wheel WheelPos) = 0 \/ Green (Wheel WheelPos) = 0 \/
   Blue (Wheel WheelPos) = 0) /\
  Wheel 255 = Wheel 0.
Proof.
  intros H. split; [|split; [|reflexivity]].
  all: unfold Wheel; rewrite (to_uint8_small (255 - WheelPos)) by lia.
  all: branches; try lia.
  all: try rewrite (to_uint8_small (255 - WheelPos - 85)) by lia.
  all: try rewrite (to_uint8_small (255 - WheelPos - 170)) by lia.
  all: match goal with
       | |- context [Color ?r ?g ?b] =>
           destruct (channels_of_Color r g b) as (E1 & E2 & E3);
           [unfold is_uint8; lia ..|]; rewrite E1, E2, E3
       end.
  all: try lia; auto.
Qed.

Lemma Wheel_saturated_witness :
  Red (Wheel 200) + Green (Wheel 200) + Blue (Wheel 200) = 255.
Proof. apply (Wheel_saturated 200). lia. Defined.

(** ** The timing gate and the counter at their edges *)

(** X5.  The gate survives the wrap of the 32-bit clock: when the clock has
    wrapped once since [LastUpdate] (the reading is below [LastUpdate]), the
    gate opens exactly when the true elapsed time, [now + 2^32 - LastUpdate],
    exceeds the interval.  With the largest interval the gate never opens. *)
Theorem ShouldUpdate_clock_wrap (p : NeoPattern) (now : Z) :
  is_uint32 now -> is_uint32 (LastUpdate p) ->
  (now < LastUpdate p ->
   (ShouldUpdate p now = true <->
    now + 4294967296 - LastUpdate p > Interval p)) /\
  (Interval p = 4294967295 -> ShouldUpdate p now = false).
Proof.
  unfold is_uint32. intros Hn Hl. split.
  - intros Hlt. rewrite ShouldUpdate_elapsed.
    assert (to_uint32 (now - LastUpdate p) = now + 4294967296 - LastUpdate p) as ->.
    { unfold to_uint32. symmetry.
      apply Z.mod_unique_pos with (q := -1); lia. }
    lia.
  - intros Hi. apply not_true_is_false. rewrite ShouldUpdate_elapsed, Hi.
    pose proof (Z.mod_pos_bound (now - LastUpdate p) 4294967296 ltac:(lia)).
    unfold to_uint32. lia.
Qed.

Lemma ShouldUpdate_clock_wrap_witness :
  ShouldUpdate (set_LastUpdate (NeoPattern_new Scanner 50 255 0 16 FORWARD) 4294967290) 45
    = true <->
  45 + 4294967296 - 4294967290 > 50.
Proof.
  apply (ShouldUpdate_clock_wrap
           (set_LastUpdate (NeoPattern_new Scanner 50 255 0 16 FORWARD) 4294967290) 45);
    [unfold is_uint32; lia | unfold is_uint32; cbn; lia | cbn; lia].
Defined.

(** X6.  A cycle of one step, or of none, completes on every call: with
    [TotalSteps] 1 or 0, [Increment] leaves the index on 0 and calls the
    completion hook, whatever the index and the direction were. *)
Theorem Increment_degenerate (p : NeoPattern) :
  0 <= TotalSteps p <= 1 ->
  Index (Increment p) = 0 /\ Completed (Increment p) = S (Completed p).
Proof.
  intros HT. unfold Increment. cbn.
  pose proof (Z.mod_pos_bound (Index p + Direction p) 65536 ltac:(lia)) as B.
  fold (to_uint16 (Index p + Direction p)) in B.
  branches; cbn; try lia; split; try reflexivity.
  assert (TotalSteps p = 1) as -> by lia. reflexivity.
Qed.

Lemma Increment_degenerate_witness :
  Index (Increment (NeoPattern_new Fade 10 0 255 1 REVERSE)) = 0 /\
  Completed (Increment (NeoPattern_new Fade 10 0 255 1 REVERSE)) = 1%nat.
Proof.
  apply (Increment_degenerate (NeoPattern_new Fade 10 0 255 1 REVERSE)).
  cbn. lia.
Defined.

(** X7.  [Reverse] twice gives back the direction but not the index: the
    pattern restarts on the boundary of its direction, 0 when it runs
    forward and [TotalSteps - 1] when it runs in reverse; nothing else
    changes. *)
Theorem Reverse_twice (p : NeoPattern) :
  1 <= TotalSteps p < 65536 ->
  Direction p = FORWARD \/ Direction p = REVERSE ->
  Reverse (Reverse p) =
    set_Index p (if Direction p =? FORWARD then 0 else TotalSteps p - 1).
Proof.
  intros HT [Hd|Hd]; unfold Reverse, set_Index, set_Direction, FORWARD, REVERSE in *;
    cbn; rewrite Hd; cbn; [reflexivity|].
  rewrite to_uint16_small by lia.
  change (to_int8 (to_int8 (-1 * -1) * -1)) with (-1). reflexivity.
Qed.

Lemma Reverse_twice_witness :
  Reverse (Reverse (Increment_n 3 (NeoPattern_new ColorWipe 50 65280 0 8 REVERSE))) =
  set_Index (Increment_n 3 (NeoPattern_new ColorWipe 50 65280 0 8 REVERSE)) 7.
Proof.
  apply (Reverse_twice (Increment_n 3 (NeoPattern_new ColorWipe 50 65280 0 8 REVERSE)));
    [change (1 <= 8 < 65536); lia | right; reflexivity].
Defined.

(** ** The controller *)

(** X8.  [Start] attaches the pattern and resets its index and its last
    update, and nothing else: the other fields of the object (direction and
    completion count included), the other objects, the buffer and the strip
    are as before.  [Start(NULL)] and [Start] of a pointer without an object
    fault. *)
Theorem Start_attaches (w : World) :
  Start None w = None /\
  (forall a, heap w !! a = None -> Start (Some a) w = None) /\
  (forall a p,
     heap w !! a = Some p ->
     Start (Some a) w =
       Some (tt, mkWorld
                   (<[a := mkNeoPattern (Kind p) (Interval p) 0 (Color1 p)
                             (Color2 p) (TotalSteps p) 0 (Direction p)
                             (Completed p)]> (heap w))
                   (Some a) (pixels w) (shown w) (clock w) (reads w))).
Proof.
  split; [reflexivity|]. split.
  - intros a H. unfold Start, call, deref, modify, get, bind, set_ActivePattern.
    cbn. now rewrite H.
  - intros a p H. unfold Start, call, deref, modify, get, bind, set_ActivePattern.
    cbn. now rewrite H.
Qed.

Lemma Start_attaches_witness :
  Start (Some 1%nat)
    (mkWorld [Increment_n 3 (NeoPattern_new ColorWipe 50 65280 0 8 FORWARD);
              Increment_n 5 (NeoPattern_new Scanner 20 255 0 16 FORWARD)]
             (Some 0%nat) [65280; 65280; 65280; 0] [[65280; 65280; 65280; 0]]
             (fun _ => 0) 7) =
    Some (tt,
          mkWorld [Increment_n 3 (NeoPattern_new ColorWipe 50 65280 0 8 FORWARD);
                   NeoPattern_new Scanner 20 255 0 16 FORWARD]
                  (Some 1%nat) [65280; 65280; 65280; 0] [[65280; 65280; 65280; 0]]
                  (fun _ => 0) 7).
Proof.
  exact (proj2 (proj2 (Start_attaches
    (mkWorld [Increment_n 3 (NeoPattern_new ColorWipe 50 65280 0 8 FORWARD);
              Increment_n 5 (NeoPattern_new Scanner 20 255 0 16 FORWARD)]
             (Some 0%nat) [65280; 65280; 65280; 0] [[65280; 65280; 65280; 0]]
             (fun _ => 0) 7)))
    1%nat (Increment_n 5 (NeoPattern_new Scanner 20 255 0 16 FORWARD)) eq_refl).
Defined.

Lemma ticks_detached (iw : IntWidth) (n : nat) (w : World) :
  ActivePattern w = None -> ticks iw n w = Some (tt, w).
Proof.
  intros H. induction n as [|n IH]; [reflexivity|].
  cbn [ticks]. unfold bind. now rewrite Update_detached.
Qed.

(** X9.  [Stop] never faults: it detaches the pattern, turns every pixel
    off and transmits the dark frame, leaving the pattern objects as they
    are; after it any number of calls of [Update] changes nothing. *)
Theorem Stop_clears (iw : IntWidth) (n : nat) (w : World) :
  Stop w =
    Some (tt, mkWorld (heap w) None
                (replicate (length (pixels w)) 0)
                (replicate (length (pixels w)) 0 :: shown w)
                (clock w) (reads w)) /\
  (Stop >> ticks iw n) w = Stop w.
Proof.
  assert (Stop w =
            Some (tt, mkWorld (heap w) None
                        (replicate (length (pixels w)) 0)
                        (replicate (length (pixels w)) 0 :: shown w)
                        (clock w) (reads w))) as E by reflexivity.
  split; [exact E|].
  unfold bind at 1. rewrite E. now apply ticks_detached.
Qed.

Lemma Update_frame (iw : IntWidth) (w w' : World) :
  Update iw w = Some (tt, w') ->
  ActivePattern w' = ActivePattern w /\
  length (pixels w') = length (pixels w) /\
  length (heap w') = length (heap w) /\
  clock w' = clock w /\
  (forall a', ActivePattern w <> Some a' -> heap w' !! a' = heap w !! a') /\
  (forall a p, ActivePattern w = Some a -> heap w !! a = Some p ->
     exists p', heap w' !! a = Some p' /\
       Kind p' = Kind p /\ Interval p' = Interval p /\
       Color1 p' = Color1 p /\ Color2 p' = Color2 p /\
       TotalSteps p' = TotalSteps p /\ Direction p' = Direction p).
Proof.
  intros U. destruct (ActivePattern w) as [a|] eqn:Ha.
  2: { rewrite Update_detached in U by exact Ha. injection U as <-.
       rewrite Ha. repeat split; auto. intros a p [=]. }
  destruct (heap w !! a) as [p|] eqn:Hp.
  2: { unfold Update, bind, get, when, IsActive, deref in U.
       rewrite Ha, Hp in U. discriminate. }
  destruct (ShouldUpdate p (to_uint32 (clock w (reads w)))) eqn:G.
  2: { rewrite (Update_gate_closed iw w a p Ha Hp G) in U. injection U as <-.
       cbn. rewrite Ha. repeat split; auto.
       intros a0 p0 [= <-] Hp0. exists p0. auto 10. }
  destruct (Pattern_Update iw (Some a) (set_reads w (S (reads w))))
    as [[[] frame]|] eqn:F.
  2: { rewrite (Update_frame_fault iw w a p Ha Hp G F) in U. discriminate. }
  rewrite (Update_applied iw w a p Ha Hp frame G F) in U. injection U as <-.
  destruct (draws_Pattern_Update iw (Some a) _ _ _ F) as (_ & _ & _ & _ & L).
  cbn in *. repeat split; auto.
  - now rewrite length_insert.
  - intros a' Hne. apply list_lookup_insert_ne. congruence.
  - intros a0 p0 [= <-] Hp0. rewrite Hp in Hp0. injection Hp0 as <-.
    eexists. split.
    + apply list_lookup_insert_eq. now apply lookup_lt_Some in Hp.
    + destruct (Increment_frame
                  (set_LastUpdate p (to_uint32 (clock w (S (reads w))))))
        as (E1 & E2 & _ & E3 & E4 & E5 & E6).
      cbn in E1, E2, E3, E4, E5, E6. auto 10.
Qed.

(** X10.  What the loop never does.  However many times [Update] runs, and
    whatever the clock, it does not attach or detach a pattern, does not
    change the number of pixels or of objects, and touches no object but
    the attached one, of which it changes neither the kind, the interval,
    the colors, the number of steps nor the direction. *)
Theorem ticks_frame (iw : IntWidth) (n : nat) :
  forall w w',
    ticks iw n w = Some (tt, w') ->
    ActivePattern w' = ActivePattern w /\
    length (pixels w') = length (pixels w) /\
    length (heap w') = length (heap w) /\
    clock w' = clock w /\
    (forall a', ActivePattern w <> Some a' -> heap w' !! a' = heap w !! a') /\
    (forall a p, ActivePattern w = Some a -> heap w !! a = Some p ->
       exists p', heap w' !! a = Some p' /\
         Kind p' = Kind p /\ Interval p' = Interval p /\
         Color1 p' = Color1 p /\ Color2 p' = Color2 p /\
         TotalSteps p' = TotalSteps p /\ Direction p' = Direction p).
Proof.
  induction n as [|n IH]; intros w w' T.
  - injection T as <-. repeat split; auto. intros a p _ Hp. exists p. auto 10.
  - cbn [ticks] in T. unfold bind in T.
    destruct (Update iw w) as [[[] w1]|] eqn:U; [|discriminate].
    destruct (Update_frame iw w w1 U) as (A1 & L1 & H1 & C1 & O1 & P1).
    destruct (IH w1 w' T) as (A2 & L2 & H2 & C2 & O2 & P2).
    repeat split; try congruence.
    + intros a' Hne. rewrite O2 by congruence. now apply O1.
    + intros a p Ha Hp. destruct (P1 a p Ha Hp) as (p1 & Hp1 & E1).
      destruct (P2 a p1 ltac:(congruence) Hp1) as (p2 & Hp2 & E2).
      exists p2. split; [exact Hp2|].
      destruct E1 as (? & ? & ? & ? & ? & ?), E2 as (? & ? & ? & ? & ? & ?).
      repeat split; congruence.
Qed.

Lemma ticks_frame_witness :
  length (pixels
    (mkWorld [mkNeoPattern ColorWipe 50 200 65280 0 8 1 FORWARD 0] (Some 0%nat)
             (65280 :: replicate 7 0) [65280 :: replicate 7 0]
             (fun k => 100 * Z.of_nat k + 100) 2)) =
  length (pixels
    (mkWorld [NeoPattern_new ColorWipe 50 65280 0 8 FORWARD] (Some 0%nat)
             (replicate 8 0) [] (fun k => 100 * Z.of_nat k + 100) 0)).
Proof.
  exact (proj1 (proj2 (ticks_frame Int16 1
    (mkWorld [NeoPattern_new ColorWipe 50 65280 0 8 FORWARD] (Some 0%nat)
             (replicate 8 0) [] (fun k => 100 * Z.of_nat k + 100) 0)
    (mkWorld [mkNeoPattern ColorWipe 50 200 65280 0 8 1 FORWARD 0] (Some 0%nat)
             (65280 :: replicate 7 0) [65280 :: replicate 7 0]
             (fun k => 100 * Z.of_nat k + 100) 2)
    eq_refl))).
Defined.

(** X11.  [ColorSet] writes the color to every pixel and transmits the
    buffer once, also on an empty strip; it touches nothing else.  The loop
    counter is an [int]: on a 16-bit [int] a strip of more than 32767
    pixels overflows it. *)
Theorem ColorSet_fills (iw : IntWidth) (color : Z) (w : World) :
  (int_ok iw (numPixels w) = true ->
   ColorSet iw color w =
     Some (tt, mkWorld (heap w) (ActivePattern w)
                 (replicate (length (pixels w)) color)
                 (replicate (length (pixels w)) color :: shown w)
                 (clock w) (reads w))) /\
  (int_ok iw (numPixels w) = false -> ColorSet iw color w = None) /\
  (int_ok iw (numPixels w) = false -> iw = Int16 \/ 2147483647 < numPixels w).
Proof.
  split; [apply ColorSet_all|]. split.
  - intros H. unfold ColorSet, for_pixels, bind, get. now rewrite H.
  - intros H. destruct iw; [now left|right].
    unfold int_ok, numPixels in *.
    apply andb_false_iff in H as [H|H].
    + apply Z.leb_gt in H. lia.
    + apply Z.leb_gt in H. exact H.
Qed.

Lemma ColorSet_fills_witness :
  ColorSet Int16 255 (mkWorld [] None [1; 2; 3] [[7; 7; 7]] (fun _ => 0) 0) =
    Some (tt, mkWorld [] None [255; 255; 255] [[255; 255; 255]; [7; 7; 7]]
                (fun _ => 0) 0).
Proof.
  exact (proj1 (ColorSet_fills Int16 255
                  (mkWorld [] None [1; 2; 3] [[7; 7; 7]] (fun _ => 0) 0)) eq_refl).
Defined.

(** ** The frames of the pixel-by-pixel patterns *)

Lemma setPixelColor_inside (i : nat) (v : Z) (w : World) :
  (i < length (pixels w))%nat ->
  setPixelColor (Z.of_nat i) v w = Some (tt, set_pixels w (<[i := v]> (pixels w))).
Proof.
  intros Hi. unfold setPixelColor, modify, numPixels.
  replace ((0 <=? Z.of_nat i) && (Z.of_nat i <? Z.of_nat (length (pixels w))))
    with true by (symmetry; apply andb_true_intro; split;
                  [apply Z.leb_le | apply Z.ltb_lt]; lia).
  now rewrite Nat2Z.id.
Qed.

Lemma getPixelColor_inside (i : nat) (w : World) :
  getPixelColor (Z.of_nat i) w = default 0 (pixels w !! i).
Proof.
  unfold getPixelColor. rewrite Nat2Z.id.
  destruct (Z.leb_spec 0 (Z.of_nat i)); [reflexivity | lia].
Qed.

Section Pixelwise.

(** A loop body that gives pixel [i] a value computed from [i] and from the
    value the pixel has, on strips of [N] pixels. *)
Variable body : Z -> M unit.
Variable F : nat -> Z -> Z.
Variable N : nat.
Hypothesis body_sets :
  forall (i : nat) (w : World),
    length (pixels w) = N -> (i < N)%nat ->
    body (Z.of_nat i) w =
      Some (tt, set_pixels w (<[i := F i (default 0 (pixels w !! i))]> (pixels w))).

Lemma for_each_pixelwise (m : nat) :
  forall (j : nat) (w : World),
    length (pixels w) = N -> (j + m <= N)%nat ->
    exists px,
      for_each body (Z.of_nat <$> seq j m) w = Some (tt, set_pixels w px) /\
      length px = N /\
      forall i, px !! i = if bool_decide (j <= i < j + m)%nat
                          then F i <$> pixels w !! i
                          else pixels w !! i.
Proof.
  induction m as [|m IH]; intros j w Hlen Hjm.
  - exists (pixels w). split; [destruct w; reflexivity|]. split; [exact Hlen|].
    intros i. rewrite bool_decide_eq_false_2 by lia. reflexivity.
  - cbn [seq fmap list_fmap for_each]. unfold bind at 1.
    rewrite body_sets by (auto; lia).
    set (w1 := set_pixels w (<[j := F j (default 0 (pixels w !! j))]> (pixels w))).
    assert (length (pixels w1) = N) as Hlen1
      by (unfold w1; cbn; now rewrite length_insert).
    destruct (IH (S j) w1 Hlen1 ltac:(lia)) as (px & R & L & P).
    exists px. split; [exact R|]. split; [exact L|].
    intros i. rewrite P. unfold w1. cbn [pixels set_pixels].
    destruct (decide (i = j)) as [->|ne].
    + rewrite bool_decide_eq_false_2 by lia.
      rewrite bool_decide_eq_true_2 by lia.
      rewrite list_lookup_insert_eq by lia.
      destruct (lookup_lt_is_Some_2 (pixels w) j ltac:(lia)) as [x ->].
      reflexivity.
    + rewrite list_lookup_insert_ne by congruence.
      destruct (decide (S j <= i < S j + m)%nat).
      * rewrite !bool_decide_eq_true_2 by lia. reflexivity.
      * rewrite !bool_decide_eq_false_2 by lia. reflexivity.
Qed.

Lemma for_pixels_pixelwise (iw : IntWidth) (w : World) :
  length (pixels w) = N -> int_ok iw (numPixels w) = true ->
  for_pixels iw body w = Some (tt, set_pixels w (imap F (pixels w))).
Proof.
  intros Hlen Hn. unfold for_pixels, bind, get. rewrite Hn, Hlen.
  destruct (for_each_pixelwise N 0 w Hlen ltac:(lia)) as (px & R & L & P).
  rewrite R. do 3 f_equal. apply list_eq. intros i.
  rewrite P, list_lookup_imap.
  destruct (decide (i < N)%nat).
  - rewrite bool_decide_eq_true_2 by lia. reflexivity.
  - rewrite bool_decide_eq_false_2 by lia.
    rewrite lookup_ge_None_2 by lia. reflexivity.
Qed.

End Pixelwise.


(** Closed comparisons of numbers, by computation. *)
Ltac compare_closed :=
  repeat match goal with |- _ /\ _ => split end;
  vm_compute; first [reflexivity | discriminate].


(** X13.  The frame of [Scanner], for an index within [0, TotalSteps]:
    pixel [i] gets [Color1] when [i] is [Index] or [TotalSteps - Index], and
    otherwise the dimmed color it had; nothing is transmitted.  On the
    scanner that is not split ([TotalSteps] twice the number of pixels) the
    frame at the turning point [Index = numPixels] lights no pixel: every
    pixel is dimmed. *)
Theorem Scanner_frame (iw : IntWidth) (p : NeoPattern) (w : World) :
  0 <= Index p <= TotalSteps p -> TotalSteps p < 65536 ->
  int_ok iw (numPixels w) = true ->
  Scanner_Update iw p w =
    Some (tt, set_pixels w
                (imap (fun i x =>
                         if (Z.of_nat i =? Index p)
                            || (Z.of_nat i =? TotalSteps p - Index p)
                         then Color1 p else DimColor x)
                      (pixels w))) /\
  (TotalSteps p = 2 * numPixels w -> Index p = numPixels w ->
   Scanner_Update iw p w = Some (tt, set_pixels w (DimColor <$> pixels w))).
Proof.
  intros HI HT Hn.
  assert (Scanner_Update iw p w =
    Some (tt, set_pixels w
                (imap (fun i x =>
                         if (Z.of_nat i =? Index p)
                            || (Z.of_nat i =? TotalSteps p - Index p)
                         then Color1 p else DimColor x)
                      (pixels w)))) as Frame.
  { unfold Scanner_Update.
    apply (for_pixels_pixelwise _ _ (length (pixels w))); auto.
    intros i w0 Hlen Hi. unfold bind, get.
    rewrite setPixelColor_inside by lia. rewrite getPixelColor_inside.
    assert (promoted iw (TotalSteps p - Index p) = TotalSteps p - Index p) as ->
      by (destruct iw; [apply to_uint16_small; lia | reflexivity]).
    reflexivity. }
  split; [exact Frame|].
  intros E2 EI. rewrite Frame. do 3 f_equal.
  apply list_eq. intros i. rewrite list_lookup_imap, list_lookup_fmap.
  destruct (pixels w !! i) as [x|] eqn:Hx; [|reflexivity]. cbn.
  apply lookup_lt_Some in Hx. unfold numPixels in *.
  branches; cbn; try lia. reflexivity.
Qed.

Lemma Scanner_frame_witness :
  Scanner_Update Int16
    (set_Index (NeoPattern_new Scanner 30 16711680 0 6 FORWARD) 3)
    (mkWorld [] None [524288; 1048576; 16711680] [] (fun _ => 0) 0) =
  Some (tt, mkWorld [] None [262144; 524288; 8323072] [] (fun _ => 0) 0).
Proof.
  exact (proj2 (Scanner_frame Int16
    (set_Index (NeoPattern_new Scanner 30 16711680 0 6 FORWARD) 3)
    (mkWorld [] None [524288; 1048576; 16711680] [] (fun _ => 0) 0)
    ltac:(compare_closed) ltac:(compare_closed) eq_refl) eq_refl eq_refl).
Defined.

(** X14.  The frame of [RainbowCycle] on a strip of [n] pixels, [n] a
    [uint16_t]: pixel [i] gets the wheel color at position
    [(i * 256 / n + Index) mod 256]; nothing is transmitted.  This holds on
    a 32-bit [int], and on a 16-bit [int] for strips of at most 128 pixels,
    where the products [i * 256] fit. *)
Theorem RainbowCycle_frame (iw : IntWidth) (p : NeoPattern) (w : World) :
  0 <= Index p -> numPixels w < 65536 ->
  iw = Int32 \/ numPixels w <= 128 ->
  RainbowCycle_Update iw p w =
    Some (tt, set_pixels w
                (imap (fun i _ =>
                         Wheel ((Z.of_nat i * 256 / numPixels w + Index p) mod 256))
                      (pixels w))).
Proof.
  intros HI HN Hw. unfold RainbowCycle_Update.
  assert (int_ok iw (numPixels w) = true) as Hn.
  { unfold numPixels in *. destruct Hw as [->|Hw].
    - apply andb_true_intro. split; apply Z.leb_le; lia.
    - destruct iw; apply andb_true_intro; split; apply Z.leb_le; lia. }
  apply (for_pixels_pixelwise _ _ (length (pixels w))); auto.
  intros i w0 Hlen Hi. unfold bind, get, numPixels in *. rewrite Hlen.
  assert (int_ok iw (Z.of_nat i * 256) = true) as ->.
  { destruct Hw as [->|Hw].
    - apply andb_true_intro. split; apply Z.leb_le; lia.
    - destruct iw; apply andb_true_intro; split; apply Z.leb_le; lia. }
  rewrite setPixelColor_inside by lia. do 4 f_equal.
  rewrite Z.quot_div_nonneg by lia.
  set (q := Z.of_nat i * 256 / Z.of_nat (length (pixels w))).
  assert (0 <= q) by (apply Z.div_pos; lia).
  change 255 with (Z.ones 8). rewrite Z.land_ones by lia. change (2 ^ 8) with 256.
  assert (promoted iw (promoted iw q + Index p) mod 256 = (q + Index p) mod 256) as ->.
  { destruct iw; [|reflexivity]. cbn. unfold to_uint16.
    rewrite Z.mod_mod_divide by (exists 256; reflexivity).
    rewrite <- Z.add_mod_idemp_l by lia.
    rewrite Z.mod_mod_divide by (exists 256; reflexivity).
    now rewrite Z.add_mod_idemp_l by lia. }
  f_equal. apply to_uint8_small. apply Z.mod_pos_bound. lia.
Qed.

Lemma RainbowCycle_frame_witness :
  RainbowCycle_Update Int16
    (set_Index (NeoPattern_new RainbowCycle 20 0 0 255 FORWARD) 85)
    (NeoPatterns_new 3 (fun _ => 0)) =
  Some (tt, mkWorld [] None [Wheel 85; Wheel 170; Wheel 255] [] (fun _ => 0) 0).
Proof.
  exact (RainbowCycle_frame Int16
    (set_Index (NeoPattern_new RainbowCycle 20 0 0 255 FORWARD) 85)
    (NeoPatterns_new 3 (fun _ => 0))
    ltac:(compare_closed) ltac:(compare_closed) ltac:(right; compare_closed)).
Defined.

(** ** The pulsar *)

Lemma odd_succ_mod (k : nat) : Nat.odd (S k) = (Z.of_nat k mod 2 =? 0).
Proof.
  rewrite Nat.odd_succ.
  destruct (Nat.Even_or_Odd k) as [[m ->]|[m ->]].
  - rewrite Nat.even_even.
    replace (Z.of_nat (2 * m)) with (0 + Z.of_nat m * 2) by lia.
    now rewrite Z.mod_add by lia.
  - rewrite Nat.even_odd.
    replace (Z.of_nat (2 * m + 1)) with (1 + Z.of_nat m * 2) by lia.
    now rewrite Z.mod_add by lia.
Qed.

Section Pulsar.

Variable iw : IntWidth.
Variable N : nat.
Variables c1 c2 : Z.
Variable a : nat.
Hypothesis strip : int_ok iw (Z.of_nat N) = true.

Lemma Update_pulsing (k : nat) (w : World) :
  pulsing N c1 c2 a k w ->
  exists w', Update iw w = Some (tt, w') /\
             pulsing N c1 c2 a (if gate_open w then S k else k) w'.
Proof.
  intros (Ha & Hlen & Hpx & p & Hp & HK & HC1 & HC2 & HT & HD & HI & HQ).
  rewrite (gate_open_attached a w p Ha Hp).
  destruct (ShouldUpdate p (to_uint32 (clock w (reads w)))) eqn:G.
  - pose proof (fun frame => Update_applied iw w a p Ha Hp frame G) as Uframe.
    pose proof (Z.mod_pos_bound (Z.of_nat k) 2 ltac:(lia)) as B.
    set (col := if Nat.odd (S k) then c1 else c2).
    set (w1 := set_reads w (S (reads w))).
    assert (Pattern_Update iw (Some a) w1
            = Some (tt, mkWorld (heap w1) (ActivePattern w1)
                          (replicate N col) (replicate N col :: shown w1)
                          (clock w1) (reads w1))) as F.
    { unfold Pattern_Update, bind, deref. cbn. rewrite Hp, HK.
      unfold Pulsar_Update. rewrite ColorSet_all
        by (unfold numPixels; cbn; now rewrite Hlen).
      cbn. rewrite Hlen, HC1, HC2, HI. unfold col.
      now rewrite odd_succ_mod. }
    eexists. split; [exact (Uframe _ F)|]. unfold pulsing. cbn.
    split; [reflexivity|]. split; [apply length_replicate|]. split.
    + intros _. split; [reflexivity|]. now exists (shown w).
    + exists (Increment (set_LastUpdate p (to_uint32 (clock w (S (reads w)))))).
      split; [apply list_lookup_insert_eq; now apply lookup_lt_Some in Hp|].
      rewrite Increment_forward by (cbn; auto; lia). cbn.
      replace (Z.of_nat (S k)) with (Z.of_nat k + 1) by lia.
      rewrite succ_mod, succ_div by lia. rewrite HI, HT.
      destruct (Z.eqb_spec (Z.of_nat k mod 2 + 1) 2);
        cbn; repeat split; auto; lia.
  - eexists. split; [exact (Update_gate_closed iw w a p Ha Hp G)|].
    split; [exact Ha|]. split; [exact Hlen|]. split; [exact Hpx|].
    exists p. repeat split; assumption.
Qed.

Lemma ticks_pulsing (n : nat) :
  forall (k : nat) (w : World),
    pulsing N c1 c2 a k w ->
    exists w', ticks iw n w = Some (tt, w') /\
               pulsing N c1 c2 a (k + applied iw n w) w'.
Proof.
  induction n as [|n IH]; intros k w Hw.
  - exists w. split; [reflexivity|]. cbn. now rewrite Nat.add_0_r.
  - destruct (Update_pulsing k w Hw) as (w1 & U & W1).
    destruct (IH _ w1 W1) as (w' & T & W').
    exists w'. cbn [ticks applied]. unfold bind. rewrite U. split; [exact T|].
    destruct (gate_open w);
      [replace (k + (1 + applied iw n w1))%nat with (S k + applied iw n w1)%nat by lia
      |replace (k + (0 + applied iw n w1))%nat with (k + applied iw n w1)%nat by lia];
      exact W'.
Qed.

End Pulsar.

(** X15.  A [Pulsar] constructed and started on a strip blinks: whatever
    the clock and however many turns the loop takes, the loop does not
    fault, and with [k] the number of applied updates, the pattern is on
    index [k mod 2] and has completed [k / 2] times; once [k >= 1] the whole
    strip has the first color when [k] is odd and the second when [k] is
    even, and that frame was transmitted twice in a row, once by [ColorSet]
    and once by the controller. *)
Theorem Pulsar_blinks (iw : IntWidth) (clk : nat -> Z) (buf : list Z)
    (interval color1 color2 : Z) (n : nat) :
  int_ok iw (Z.of_nat (length buf)) = true ->
  (let* pulsar := Pulsar_new interval color1 color2 in Start pulsar)
    (mkWorld [] None buf [] clk 0) =
    Some (tt, mkWorld [NeoPattern_new Pulsar interval color1 color2 2 FORWARD]
                (Some 0%nat) buf [] clk 0) /\
  exists w p,
    ticks iw n (mkWorld [NeoPattern_new Pulsar interval color1 color2 2 FORWARD]
                  (Some 0%nat) buf [] clk 0) = Some (tt, w) /\
    heap w !! 0%nat = Some p /\
    Index p =
      Z.of_nat (applied iw n
        (mkWorld [NeoPattern_new Pulsar interval color1 color2 2 FORWARD]
           (Some 0%nat) buf [] clk 0)) mod 2 /\
    Z.of_nat (Completed p) =
      Z.of_nat (applied iw n
        (mkWorld [NeoPattern_new Pulsar interval color1 color2 2 FORWARD]
           (Some 0%nat) buf [] clk 0)) / 2 /\
    ((1 <= applied iw n
        (mkWorld [NeoPattern_new Pulsar interval color1 color2 2 FORWARD]
           (Some 0%nat) buf [] clk 0))%nat ->
     pixels w =
       replicate (length buf)
         (if Nat.odd (applied iw n
               (mkWorld [NeoPattern_new Pulsar interval color1 color2 2 FORWARD]
                  (Some 0%nat) buf [] clk 0))
          then color1 else color2) /\
     exists rest, shown w = pixels w :: pixels w :: rest).
Proof.
  intros Hn. split; [reflexivity|].
  set (started := mkWorld [NeoPattern_new Pulsar interval color1 color2 2 FORWARD]
                    (Some 0%nat) buf [] clk 0).
  assert (pulsing (length buf) color1 color2 0 0 started) as W0.
  { repeat split; auto; try lia. eexists. repeat split; reflexivity. }
  destruct (ticks_pulsing iw (length buf) color1 color2 0 Hn n 0%nat started W0)
    as (w & T & (_ & _ & Hpx & p & Hp & _ & _ & _ & _ & _ & HI & HQ)).
  cbn [Nat.add] in Hpx, HI, HQ.
  exists w, p. auto.
Qed.

Lemma Pulsar_blinks_witness :
  exists w p,
    ticks Int16 4
      (mkWorld [NeoPattern_new Pulsar 50 16711680 0 2 FORWARD]
         (Some 0%nat) [7; 7; 7]%Z [] (fun k => (60 * Z.of_nat k)%Z) 0) = Some (tt, w) /\
    heap w !! 0%nat = Some p /\
    Index p =
      Z.of_nat (applied Int16 4
        (mkWorld [NeoPattern_new Pulsar 50 16711680 0 2 FORWARD]
           (Some 0%nat) [7; 7; 7]%Z [] (fun k => (60 * Z.of_nat k)%Z) 0)) mod 2 /\
    Z.of_nat (Completed p) =
      Z.of_nat (applied Int16 4
        (mkWorld [NeoPattern_new Pulsar 50 16711680 0 2 FORWARD]
           (Some 0%nat) [7; 7; 7]%Z [] (fun k => (60 * Z.of_nat k)%Z) 0)) / 2 /\
    ((1 <= applied Int16 4
        (mkWorld [NeoPattern_new Pulsar 50 16711680 0 2 FORWARD]
           (Some 0%nat) [7; 7; 7]%Z [] (fun k => (60 * Z.of_nat k)%Z) 0))%nat ->
     pixels w =
       replicate (length [7; 7; 7]%Z)
         (if Nat.odd (applied Int16 4
               (mkWorld [NeoPattern_new Pulsar 50 16711680 0 2 FORWARD]
                  (Some 0%nat) [7; 7; 7]%Z [] (fun k => (60 * Z.of_nat k)%Z) 0))
          then 16711680 else 0) /\
     exists rest, shown w = pixels w :: pixels w :: rest).
Proof.
  exact (proj2 (Pulsar_blinks Int16 (fun k => (60 * Z.of_nat k)%Z) [7; 7; 7]%Z
                  50 16711680 0 4 eq_refl)).
Defined.

(** ** Construction *)

(** X16.  On a strip of 1 to 32767 pixels every constructor succeeds,
    places the new object at the next address without touching the
    controller, the strip or the objects already there, and leaves it at
    rest in its cycle (index 0, last update 0): 255 steps for
    [RainbowCycle], one step per pixel for [TheaterChase] and [ColorWipe],
    two steps per pixel for [Scanner] (one when split), 2 for [Pulsar] and
    the given number for [Fade] when that is a [uint16_t] of at least 1. *)
Theorem constructed_in_cycle (w : World)
    (interval color1 color2 dir steps : Z) (split : bool) :
  1 <= numPixels w < 32768 ->
  dir = FORWARD \/ dir = REVERSE ->
  1 <= steps < 65536 ->
  let built (T : Z) (r : option (option nat * World)) :=
    exists p, r = Some (Some (length (heap w)), set_heap w (heap w ++ [p])) /\
              in_cycle T p /\ Index p = 0 /\ LastUpdate p = 0 in
  built 255 (RainbowCycle_new interval dir w) /\
  built (numPixels w) (TheaterChase_new interval color1 color2 dir w) /\
  built (numPixels w) (ColorWipe_new interval color1 dir w) /\
  built (if split then numPixels w else 2 * numPixels w)
        (Scanner_new interval color1 split w) /\
  built 2 (Pulsar_new interval color1 color2 w) /\
  built steps (Fade_new interval color1 color2 steps dir w).
Proof.
  intros HN Hd Hs built. unfold built, in_cycle, FORWARD, REVERSE in *.
  repeat split; eexists; (split; [reflexivity|]); cbn; repeat split;
    auto; try lia.
  - rewrite to_uint16_small by (destruct split; lia). destruct split; lia.
  - destruct split; lia.
Qed.

Lemma constructed_in_cycle_witness :
  exists p,
    Scanner_new 30 255 false (NeoPatterns_new 8 (fun _ => 0)) =
      Some (Some 0%nat, set_heap (NeoPatterns_new 8 (fun _ => 0)) ([] ++ [p])) /\
    in_cycle 16 p /\ Index p = 0 /\ LastUpdate p = 0.
Proof.
  exact (proj1 (proj2 (proj2 (proj2
    (constructed_in_cycle (NeoPatterns_new 8 (fun _ => 0)) 30 255 0 FORWARD 1 false
       ltac:(compare_closed) (or_introl eq_refl) ltac:(compare_closed)))))).
Defined.

(** ** What a frame computation touches *)

Lemma silent_bind {A B} (m : M A) (k : A -> M B) :
  silent m -> (forall x, silent (k x)) -> silent (bind m k).
Proof.
  intros Hm Hk w b w' H. unfold bind in H.
  destruct (m w) as [[x w1]|] eqn:E; [|discriminate].
  rewrite (Hk x _ _ _ H). exact (Hm _ _ _ E).
Qed.

Lemma silent_setPixelColor (n c : Z) : silent (setPixelColor n c).
Proof.
  intros w x w' [= _ <-].
  destruct ((0 <=? n) && (n <? numPixels w)); reflexivity.
Qed.

Lemma silent_get : silent get.
Proof. intros w x w' [= _ <-]. reflexivity. Qed.

Lemma silent_for_pixels (iw : IntWidth) (body : Z -> M unit) :
  (forall i, silent (body i)) -> silent (for_pixels iw body).
Proof.
  intros Hb. unfold for_pixels. apply silent_bind; [apply silent_get|].
  intros w0. destruct (int_ok iw (numPixels w0)); [|intros w x w' [=]].
  induction (Z.of_nat <$> seq 0 (length (pixels w0))) as [|i l IH]; cbn.
  - intros w x w' [= _ <-]. reflexivity.
  - apply silent_bind; auto.
Qed.

Lemma ColorSet_transmits (iw : IntWidth) (color : Z) (w w' : World) :
  ColorSet iw color w = Some (tt, w') -> shown w' = pixels w' :: shown w.
Proof.
  intros H. destruct (int_ok iw (numPixels w)) eqn:Hn.
  - rewrite ColorSet_all in H by exact Hn. now injection H as <-.
  - unfold ColorSet, for_pixels, bind, get in H. rewrite Hn in H. discriminate.
Qed.

(** X17.  What the frame computation of each pattern touches.  None
    changes a pattern object (the index does not advance), the attached
    pattern, the clock or the number of pixels.  [RainbowCycle],
    [TheaterChase], [ColorWipe] and [Scanner] transmit nothing; [Pulsar] and
    [Fade] transmit the frame themselves, through [ColorSet], before the
    controller does. *)
Theorem Pattern_Update_footprint (iw : IntWidth) (a : nat) (p : NeoPattern)
    (w w' : World) :
  heap w !! a = Some p ->
  Pattern_Update iw (Some a) w = Some (tt, w') ->
  (heap w' = heap w /\ ActivePattern w' = ActivePattern w /\
   clock w' = clock w /\ reads w' = reads w /\
   length (pixels w') = length (pixels w)) /\
  shown w' =
    match Kind p with
    | Pulsar | Fade => pixels w' :: shown w
    | _ => shown w
    end.
Proof.
  intros Hp H. split; [exact (draws_Pattern_Update iw (Some a) _ _ _ H)|].
  unfold Pattern_Update, bind, deref in H. rewrite Hp in H.
  destruct (Kind p).
  - revert H. apply silent_for_pixels. intros i. apply silent_bind;
      [apply silent_get|]. intros w0.
    destruct (int_ok iw (i * 256)); [apply silent_setPixelColor|].
    intros ? ? ? [=].
  - revert H. apply silent_for_pixels. intros i. apply silent_setPixelColor.
  - revert H. apply silent_setPixelColor.
  - revert H. apply silent_for_pixels. intros i. apply silent_bind;
      [apply silent_get|]. intros w0. apply silent_setPixelColor.
  - now apply ColorSet_transmits in H.
  - unfold Fade_Update, bind, lift in H.
    destruct (Fade_channel iw (Red (Color1 p)) (Red (Color2 p)) p); [|discriminate].
    destruct (Fade_channel iw (Green (Color1 p)) (Green (Color2 p)) p); [|discriminate].
    destruct (Fade_channel iw (Blue (Color1 p)) (Blue (Color2 p)) p); [|discriminate].
    now apply ColorSet_transmits in H.
Qed.

Lemma Pattern_Update_footprint_witness :
  shown (mkWorld [set_Index (NeoPattern_new Pulsar 50 16711680 0 2 FORWARD) 1]
           (Some 0%nat) [0; 0] [[0; 0]; [9; 9]] (fun _ => 0) 0) =
  pixels (mkWorld [set_Index (NeoPattern_new Pulsar 50 16711680 0 2 FORWARD) 1]
            (Some 0%nat) [0; 0] [[0; 0]; [9; 9]] (fun _ => 0) 0) ::
  shown (mkWorld [set_Index (NeoPattern_new Pulsar 50 16711680 0 2 FORWARD) 1]
           (Some 0%nat) [16711680; 5] [[9; 9]] (fun _ => 0) 0).
Proof.
  exact (proj2 (Pattern_Update_footprint Int16 0
    (set_Index (NeoPattern_new Pulsar 50 16711680 0 2 FORWARD) 1)
    (mkWorld [set_Index (NeoPattern_new Pulsar 50 16711680 0 2 FORWARD) 1]
       (Some 0%nat) [16711680; 5] [[9; 9]] (fun _ => 0) 0)
    (mkWorld [set_Index (NeoPattern_new Pulsar 50 16711680 0 2 FORWARD) 1]
       (Some 0%nat) [0; 0] [[0; 0]; [9; 9]] (fun _ => 0) 0)
    eq_refl eq_refl)).
Defined.
